(** * A rewriting forward proxy (server.js): URL rewriting, HTML/CSS passes
      and the /proxy request handler.

    JavaScript strings are sequences of 16-bit code units; they are modelled
    as [list Z].  Library functions the program calls (the ECMAScript
    built-ins, the WHATWG [URL] class, cheerio, fetch) are either written out
    after their standards or taken as parameters of a section. *)

From Stdlib Require Import ZArith String Ascii Lia.
From stdpp Require Import base option list gmap.

Local Open Scope Z_scope.

(** ** JavaScript strings *)

Module JS.

Abbreviation jsstring := (list Z).

(** An ASCII literal as a JavaScript string. *)
Definition lit (s : string) : jsstring :=
  (fun a => Z.of_N (N_of_ascii a)) <$> list_ascii_of_string s.

(** Every code unit is a 16-bit value. *)
Definition code_units (s : jsstring) : Prop := Forall (fun c => 0 <= c < 65536) s.

Definition ascii_only (s : jsstring) : Prop := Forall (fun c => 0 <= c < 128) s.

Definition between (lo hi c : Z) : bool := (lo <=? c) && (c <=? hi).

Definition isLeadingSurrogate (c : Z) : bool := between 55296 56319 c.
Definition isTrailingSurrogate (c : Z) : bool := between 56320 57343 c.

(** [String.prototype.startsWith] (position 0). *)
Fixpoint startsWith (s p : jsstring) {struct p} : bool :=
  match p with
  | [] => true
  | a :: p' =>
      match s with
      | [] => false
      | b :: s' => (a =? b) && startsWith s' p'
      end
  end.

(** [String.prototype.includes] (position 0). *)
Fixpoint includes (s p : jsstring) : bool :=
  startsWith s p ||
  match s with
  | [] => false
  | _ :: s' => includes s' p
  end.

(** [Array.prototype.includes] on an array of strings. *)
Definition arrayIncludes (xs : list jsstring) (x : jsstring) : bool :=
  bool_decide (x ∈ xs).

(** [Array.prototype.join]. *)
Fixpoint join (sep : jsstring) (xs : list jsstring) : jsstring :=
  match xs with
  | [] => []
  | [x] => x
  | x :: rest => x ++ sep ++ join sep rest
  end.

(** ECMAScript WhiteSpace and LineTerminator code points: the set removed by
    [trim] and matched by the regular-expression class [\s]. *)
Definition isWhiteSpace (c : Z) : bool :=
  between 9 13 c || (c =? 32) || (c =? 160) || (c =? 5760) ||
  between 8192 8202 c || (c =? 8232) || (c =? 8233) || (c =? 8239) ||
  (c =? 8287) || (c =? 12288) || (c =? 65279).

(** LineTerminator: what the regular-expression [.] does not match. *)
Definition isLineTerminator (c : Z) : bool :=
  (c =? 10) || (c =? 13) || (c =? 8232) || (c =? 8233).

(** Visible ASCII. *)
Definition printable (c : Z) : Prop := 33 <= c <= 126.

(** The last code unit is not white space. *)
Definition endsNonWs (s : jsstring) : Prop :=
  exists s' c, s = s' ++ [c] /\ isWhiteSpace c = false.

Fixpoint trimStart (s : jsstring) : jsstring :=
  match s with
  | [] => []
  | c :: rest => if isWhiteSpace c then trimStart rest else s
  end.

Definition trimEnd (s : jsstring) : jsstring := reverse (trimStart (reverse s)).

(** [String.prototype.trim]. *)
Definition trim (s : jsstring) : jsstring := trimEnd (trimStart s).

(** [String.prototype.split] with a one-code-unit separator. *)
Fixpoint splitOn (sep : Z) (s : jsstring) : list jsstring :=
  match s with
  | [] => [[]]
  | c :: rest =>
      if c =? sep then [] :: splitOn sep rest
      else match splitOn sep rest with
           | [] => [[c]]
           | x :: xs => (c :: x) :: xs
           end
  end.

(** [String.prototype.split(/\s+/)]: [cur] is the piece being read (reversed)
    and [inSep] says that the previous code unit was part of a separator. *)
Fixpoint splitWsAux (inSep : bool) (cur : jsstring) (s : jsstring) : list jsstring :=
  match s with
  | [] => [reverse cur]
  | c :: rest =>
      if isWhiteSpace c then
        if inSep then splitWsAux true cur rest
        else reverse cur :: splitWsAux true [] rest
      else splitWsAux false (c :: cur) rest
  end.

Definition splitWs (s : jsstring) : list jsstring := splitWsAux false [] s.

(** *** encodeURIComponent (ECMA-262, Encode) *)

Definition isAlnum (c : Z) : bool :=
  between 48 57 c || between 65 90 c || between 97 122 c.

(** uriUnreserved: alphanumerics and the marks [-_.!~*'()]. *)
Definition uriUnescaped (c : Z) : bool :=
  isAlnum c || existsb (Z.eqb c) (lit "-_.!~*'()").

(** What [encodeURIComponent] writes: unreserved code units and percent
    signs. *)
Definition uriSafe (c : Z) : Prop := uriUnescaped c = true \/ c = 37.

Definition hexDigit (d : Z) : Z := if d <? 10 then 48 + d else 55 + d.

(** One octet as a percent sign and two upper-case hexadecimal digits. *)
Definition percentOctet (b : Z) : jsstring := [37; hexDigit (b / 16); hexDigit (b mod 16)].

Definition percentOctets (bs : list Z) : jsstring := concat (percentOctet <$> bs).

(** The UTF-8 transformation of a code point. *)
Definition utf8Encode (cp : Z) : list Z :=
  if cp <? 128 then [cp]
  else if cp <? 2048 then [192 + cp / 64; 128 + cp mod 64]
  else if cp <? 65536 then [224 + cp / 4096; 128 + (cp / 64) mod 64; 128 + cp mod 64]
  else [240 + cp / 262144; 128 + (cp / 4096) mod 64; 128 + (cp / 64) mod 64; 128 + cp mod 64].

(** Unicode scalar values: code points that are not surrogates. *)
Definition scalar (cp : Z) : Prop := 0 <= cp <= 1114111 /\ ~ (55296 <= cp <= 57343).

Definition surrogatePair (hi lo : Z) : Z := (hi - 55296) * 1024 + (lo - 56320) + 65536.

(** [None] stands for the URIError thrown on an unpaired surrogate. *)
Fixpoint Encode (unescaped : Z -> bool) (s : jsstring) : option jsstring :=
  match s with
  | [] => Some []
  | c :: rest =>
      if unescaped c then (fun r => c :: r) <$> Encode unescaped rest
      else if isTrailingSurrogate c then None
      else if isLeadingSurrogate c then
        match rest with
        | [] => None
        | c2 :: rest' =>
            if isTrailingSurrogate c2 then
              (fun r => percentOctets (utf8Encode (surrogatePair c c2)) ++ r)
                <$> Encode unescaped rest'
            else None
        end
      else (fun r => percentOctets (utf8Encode c) ++ r) <$> Encode unescaped rest
  end.

Definition encodeURIComponent (s : jsstring) : option jsstring := Encode uriUnescaped s.

(** *** decodeURIComponent (ECMA-262, Decode) *)

Definition hexValue (c : Z) : option Z :=
  if between 48 57 c then Some (c - 48)
  else if between 65 70 c then Some (c - 55)
  else if between 97 102 c then Some (c - 87)
  else None.

(** ParseHexOctet at the head of [s], with the rest of the string. *)
Definition ParseHexOctet (s : jsstring) : option (Z * jsstring) :=
  match s with
  | h1 :: h2 :: rest =>
      match hexValue h1, hexValue h2 with
      | Some a, Some b => Some (16 * a + b, rest)
      | _, _ => None
      end
  | _ => None
  end.

(** An escape (percent sign, two hexadecimal digits) at the head of [s]. *)
Definition readEscape (s : jsstring) : option (Z * jsstring) :=
  match s with
  | c :: rest => if c =? 37 then ParseHexOctet rest else None
  | [] => None
  end.

Fixpoint readContinuations (n : nat) (s : jsstring) : option (list Z * jsstring) :=
  match n with
  | O => Some ([], s)
  | S n' =>
      match readEscape s with
      | Some (b, s1) =>
          match readContinuations n' s1 with
          | Some (bs, s2) => Some (b :: bs, s2)
          | None => None
          end
      | None => None
      end
  end.

(** Number of leading 1 bits of an octet (5 stands for any larger count). *)
Definition leadingOnes (b : Z) : nat :=
  if b <? 128 then 0%nat
  else if b <? 192 then 1%nat
  else if b <? 224 then 2%nat
  else if b <? 240 then 3%nat
  else if b <? 248 then 4%nat
  else 5%nat.

Definition isContinuation (b : Z) : bool := between 128 191 b.

(** The code point of a well-formed UTF-8 sequence: no overlong form, no
    surrogate, nothing above U+10FFFF. *)
Definition utf8Decode (bs : list Z) : option Z :=
  match bs with
  | [b0; b1] =>
      let cp := (b0 - 192) * 64 + (b1 - 128) in
      if isContinuation b1 && (128 <=? cp) then Some cp else None
  | [b0; b1; b2] =>
      let cp := (b0 - 224) * 4096 + (b1 - 128) * 64 + (b2 - 128) in
      if isContinuation b1 && isContinuation b2 && (2048 <=? cp)
         && negb (between 55296 57343 cp) then Some cp else None
  | [b0; b1; b2; b3] =>
      let cp := (b0 - 240) * 262144 + (b1 - 128) * 4096 + (b2 - 128) * 64 + (b3 - 128) in
      if isContinuation b1 && isContinuation b2 && isContinuation b3
         && between 65536 1114111 cp then Some cp else None
  | _ => None
  end.

Definition UTF16EncodeCodePoint (cp : Z) : jsstring :=
  if cp <=? 65535 then [cp]
  else [(cp - 65536) / 1024 + 55296; (cp - 65536) mod 1024 + 56320].

(** The loop of Decode; every turn consumes at least one code unit, so
    [length s] turns are enough.  [None] stands for a URIError. *)
Fixpoint DecodeLoop (preserve : Z -> bool) (fuel : nat) (s : jsstring) : option jsstring :=
  match s with
  | [] => Some []
  | c :: rest =>
      match fuel with
      | O => None
      | S fuel' =>
          if c =? 37 then
            match ParseHexOctet rest with
            | None => None
            | Some (b, rest1) =>
                match leadingOnes b with
                | O =>
                    (fun r => (if preserve b then take 3 s else [b]) ++ r)
                      <$> DecodeLoop preserve fuel' rest1
                | S O => None
                | S (S (S (S (S _)))) => None
                | S n' =>
                    match readContinuations n' rest1 with
                    | None => None
                    | Some (bs, rest2) =>
                        match utf8Decode (b :: bs) with
                        | None => None
                        | Some cp =>
                            (fun r => UTF16EncodeCodePoint cp ++ r)
                              <$> DecodeLoop preserve fuel' rest2
                        end
                    end
                end
            end
          else (fun r => c :: r) <$> DecodeLoop preserve fuel' rest
      end
  end.

Definition decodeURIComponent (s : jsstring) : option jsstring :=
  DecodeLoop (fun _ => false) (length s) s.

End JS.

Import JS.


(** ** The platform

    What the program takes from Node.js and its packages and this
    development does not write out: the WHATWG [URL] class, cheerio's parser
    and serializer, [fetch], [Buffer] decoding and the Unicode case
    mappings. *)

Record URL := mkURL { href : jsstring; protocol : jsstring }.

(** A node of cheerio's tree: an element with its attribute object and
    children, or any other node (text, comment, directive). *)
#[warnings="-register-all"] Inductive node :=
  | Element (tagName : jsstring) (attribs : gmap jsstring jsstring) (children : list node)
  | Text (data : jsstring).

(** A settled promise: fulfilled with a value, or rejected with an error
    of the given [name] and [message]. *)
Inductive settled (A : Type) :=
  | Fulfilled (value : A)
  | Rejected (name message : jsstring).
Arguments Fulfilled {A} value.
Arguments Rejected {A} name message.

(** The response object of [fetch]; [headers] lists the pairs in the order
    [Headers.prototype.forEach] visits them. *)
Record Response := mkResponse {
  status : Z;
  headers : list (jsstring * jsstring);
  arrayBuffer : settled (list Z);
  text : settled jsstring
}.

Record FetchOptions := mkFetchOptions {
  fo_method : jsstring;
  fo_timeout : Z;
  fo_headers : list (jsstring * jsstring);
  fo_body : option jsstring
}.

Record Platform := mkPlatform {
  (** [new URL(input)]; [None] when it throws. *)
  URL_new : jsstring -> option URL;
  (** [new URL(input, base)]; [None] when it throws. *)
  URL_new_base : jsstring -> URL -> option URL;
  (** [cheerio.load(html)]: the children of the document root. *)
  cheerio_load : jsstring -> list node;
  (** [$.html()]. *)
  cheerio_html : list node -> jsstring;
  (** [fetch(input, init)], settled. *)
  fetch : jsstring -> FetchOptions -> settled Response;
  (** [Buffer.from(arrayBuffer).toString()]. *)
  Buffer_toString : list Z -> jsstring;
  toLowerCase : jsstring -> jsstring;
  toUpperCase : jsstring -> jsstring
}.

(** ** The regular expression of the [url(...)] passes

    The pattern, with flags [g] and [i], is: the letters u, r, l; [\s*]; an
    opening parenthesis; a first group holding an optional single or double
    quote; a second, lazy group [(.*?)]; a back-reference to the first group;
    a closing parenthesis. *)

Module UrlPattern.

(** A letter of the pattern under the [i] flag: [lower] or its capital. *)
Definition letter (lower c : Z) : bool := (c =? lower) || (c =? lower - 32).

(** The lazy group [(.*?)] followed by [close]: the shortest run of code
    units that are not line terminators after which [close] matches.
    Returns the run and what follows [close]. *)
Fixpoint lazyUntil (close : jsstring) (s : jsstring) : option (jsstring * jsstring) :=
  if startsWith s close then Some ([], drop (length close) s)
  else match s with
       | [] => None
       | c :: s' =>
           if isLineTerminator c then None
           else match lazyUntil close s' with
                | Some (p, r) => Some (c :: p, r)
                | None => None
                end
       end.

(** A match starting at the head of [s]: the captures [quote] and [path],
    and the text after the match.  [\s*] is greedy and what follows it is
    not white space, so it never gives back; the quote group first takes the
    quote and on failure retries with the empty capture. *)
Definition matchAt (s : jsstring) : option (jsstring * jsstring * jsstring) :=
  match s with
  | u :: r :: l :: s1 =>
      if letter 117 u && letter 114 r && letter 108 l then
        match trimStart s1 with
        | p :: s2 =>
            if p =? 40 then
              let unquoted :=
                match lazyUntil [41] s2 with
                | Some (path, rest) => Some ([], path, rest)
                | None => None
                end in
              match s2 with
              | q :: s3 =>
                  if (q =? 39) || (q =? 34) then
                    match lazyUntil [q; 41] s3 with
                    | Some (path, rest) => Some ([q], path, rest)
                    | None => unquoted
                    end
                  else unquoted
              | [] => unquoted
              end
            else None
        | [] => None
        end
      else None
  | _ => None
  end.

(** [String.prototype.replace] with this pattern and a replacer function
    [(match, quote, path) => ...]: matches are looked for from left to right
    and the search resumes after each match. *)
Fixpoint replaceLoop (fuel : nat) (replacer : jsstring -> jsstring -> jsstring -> jsstring)
    (s : jsstring) : jsstring :=
  match fuel with
  | O => s
  | S fuel' =>
      match s with
      | [] => []
      | c :: s' =>
          match matchAt s with
          | Some (quote, path, rest) =>
              replacer (take (length s - length rest)%nat s) quote path
                ++ replaceLoop fuel' replacer rest
          | None => c :: replaceLoop fuel' replacer s'
          end
      end
  end.

Definition replace (replacer : jsstring -> jsstring -> jsstring -> jsstring)
    (s : jsstring) : jsstring :=
  replaceLoop (length s) replacer s.

(** The matches that the search finds in a text, in order, each with the
    matched text and its two captures: the arguments of the calls of the
    replacer. *)
Fixpoint matchesLoop (fuel : nat) (s : jsstring) : list (jsstring * jsstring * jsstring) :=
  match fuel with
  | O => []
  | S fuel' =>
      match s with
      | [] => []
      | c :: s' =>
          match matchAt s with
          | Some (quote, path, rest) =>
              (take (length s - length rest)%nat s, quote, path) :: matchesLoop fuel' rest
          | None => matchesLoop fuel' s'
          end
      end
  end.

Definition matches (s : jsstring) : list (jsstring * jsstring * jsstring) :=
  matchesLoop (length s) s.

(** A reference the pattern reads back as written: without quote, the path
    holds no closing parenthesis and no line terminator and does not start
    with a quote; with a quote, the path holds neither that quote nor a
    line terminator. *)
Definition plainReference (quote path : jsstring) : Prop :=
  match quote with
  | [] =>
      Forall (fun c => c <> 41 /\ isLineTerminator c = false) path
      /\ match path with
         | c :: _ => c <> 39 /\ c <> 34
         | [] => True
         end
  | [q] =>
      (q = 39 \/ q = 34)
      /\ Forall (fun c => c <> q /\ isLineTerminator c = false) path
  | _ => False
  end.

End UrlPattern.

(** ** server.js *)

Module Server.

Section WithPlatform.

Variable env : Platform.

Definition proxyPrefix : jsstring := lit "/proxy?url=".

(** The body of the [try] blocks:
    [proxyPrefix + encodeURIComponent(new URL(path, baseUrl).href)];
    [None] when one of the two calls throws. *)
Definition proxiedUrl (path : jsstring) (baseUrl : URL) : option jsstring :=
  match URL_new_base env path baseUrl with
  | Some absolute =>
      match encodeURIComponent (href absolute) with
      | Some encoded => Some (proxyPrefix ++ encoded)
      | None => None
      end
  | None => None
  end.

(** The replacer of [url(...)] references, the same in the inline-style pass
    and in the CSS branch of the handler. *)
Definition urlReplacer (baseUrl : URL) (matched quote path : jsstring) : jsstring :=
  if startsWith path (lit "http") || startsWith path (lit "//")
     || startsWith path (lit "data:")
  then matched
  else match proxiedUrl path baseUrl with
       | Some proxied => lit "url(" ++ quote ++ proxied ++ quote ++ lit ")"
       | None => matched
       end.

Definition rewriteCss (baseUrl : URL) (css : jsstring) : jsstring :=
  UrlPattern.replace (urlReplacer baseUrl) css.

(** One candidate of a [srcset] value. *)
Definition rewriteSrcsetEntry (baseUrl : URL) (source : jsstring) : jsstring :=
  let parts := splitWs (trim source) in
  let path := hd [] parts in
  let descriptor := join (lit " ") (tail parts) in
  if startsWith path (lit "data:") then source
  else match proxiedUrl path baseUrl with
       | Some proxied => trim (proxied ++ lit " " ++ descriptor)
       | None => source
       end.

Definition rewriteSrcset (baseUrl : URL) (srcsetAttr : jsstring) : jsstring :=
  join (lit ", ") (rewriteSrcsetEntry baseUrl <$> splitOn 44 srcsetAttr).

(** What cheerio's [attr(name)] returns: with an empty name it returns the
    whole attribute object, which is not a string. *)
Inductive attrValue :=
  | AttrString (value : jsstring)
  | AttrUndefined
  | AttrObject (all : gmap jsstring jsstring).

Definition attr (attribs : gmap jsstring jsstring) (name : jsstring) : attrValue :=
  match name with
  | [] => AttrObject attribs
  | _ =>
      match attribs !! name with
      | Some v => AttrString v
      | None => AttrUndefined
      end
  end.

(** The [switch] on the tag name; the empty string when no case applies. *)
Definition urlAttribute (tagName : jsstring) : jsstring :=
  if bool_decide (tagName = lit "a") then lit "href"
  else if bool_decide (tagName = lit "form") then lit "action"
  else if bool_decide (tagName ∈ [lit "img"; lit "script"; lit "video"; lit "audio";
                                   lit "iframe"; lit "source"]) then lit "src"
  else if bool_decide (tagName = lit "link") then lit "href"
  else [].

(** [$element.attr('method') || 'GET']. *)
Definition methodOrGet (attribs : gmap jsstring jsstring) : jsstring :=
  match attr attribs (lit "method") with
  | AttrString (c :: m) => c :: m
  | _ => lit "GET"
  end.

Definition rewriteUrlAttribute (baseUrl : URL) (tagName : jsstring)
    (attribs : gmap jsstring jsstring) : gmap jsstring jsstring :=
  let attribute := urlAttribute tagName in
  match attr attribs attribute with
  | AttrString ((_ :: _) as originalPath) =>
      if negb (startsWith originalPath (lit "data:")) then
        match proxiedUrl originalPath baseUrl with
        | Some proxied =>
            let attribs1 := <[attribute := proxied]> attribs in
            if bool_decide (tagName = lit "form")
            then <[lit "method" := methodOrGet attribs1]> attribs1
            else attribs1
        | None => attribs
        end
      else attribs
  | _ => attribs
  end.

Definition rewriteSrcsetAttribute (baseUrl : URL) (tagName : jsstring)
    (attribs : gmap jsstring jsstring) : gmap jsstring jsstring :=
  if bool_decide (tagName = lit "img") || bool_decide (tagName = lit "source") then
    match attr attribs (lit "srcset") with
    | AttrString ((_ :: _) as srcsetAttr) =>
        <[lit "srcset" := rewriteSrcset baseUrl srcsetAttr]> attribs
    | _ => attribs
    end
  else attribs.

Definition rewriteStyleAttribute (baseUrl : URL)
    (attribs : gmap jsstring jsstring) : gmap jsstring jsstring :=
  match attr attribs (lit "style") with
  | AttrString ((_ :: _) as styleAttr) =>
      <[lit "style" := UrlPattern.replace (urlReplacer baseUrl) styleAttr]> attribs
  | _ => attribs
  end.

(** The body of the [each] callback on one selected element. *)
Definition rewriteElement (baseUrl : URL) (tagName : jsstring)
    (attribs : gmap jsstring jsstring) : gmap jsstring jsstring :=
  rewriteStyleAttribute baseUrl
    (rewriteSrcsetAttribute baseUrl tagName
       (rewriteUrlAttribute baseUrl tagName attribs)).

(** The attribute selector on rel: in an HTML document css-select compares
    the value of rel without regard to case, that is, the value has the
    length of the expected one and equals it once lower-cased. *)
Definition relIsStylesheet (attribs : gmap jsstring jsstring) : bool :=
  match attribs !! lit "rel" with
  | Some rel =>
      bool_decide (length rel = length (lit "stylesheet"))
      && bool_decide (toLowerCase env rel = lit "stylesheet")
  | None => false
  end.

(** The selector list of the pass: a, form, img, script, video, audio,
    source, iframe; link with rel equal to stylesheet; any element with a
    style attribute. *)
Definition selected (tagName : jsstring) (attribs : gmap jsstring jsstring) : bool :=
  bool_decide (tagName ∈ [lit "a"; lit "form"; lit "img"; lit "script"; lit "video";
                          lit "audio"; lit "source"; lit "iframe"])
  || (bool_decide (tagName = lit "link") && relIsStylesheet attribs)
  || bool_decide (is_Some (attribs !! lit "style")).

Fixpoint rewriteNode (baseUrl : URL) (n : node) : node :=
  match n with
  | Element tagName attribs children =>
      Element tagName
        (if selected tagName attribs then rewriteElement baseUrl tagName attribs
         else attribs)
        (rewriteNode baseUrl <$> children)
  | Text data => Text data
  end.

Definition isBase (n : node) : bool :=
  match n with
  | Element tagName _ _ => bool_decide (tagName = lit "base")
  | Text _ => false
  end.

(** [$('base').remove()] below one node. *)
Fixpoint removeBaseIn (n : node) : node :=
  match n with
  | Element tagName attribs children =>
      Element tagName attribs
        ((fix go (ns : list node) : list node :=
            match ns with
            | [] => []
            | c :: rest => if isBase c then go rest else removeBaseIn c :: go rest
            end) children)
  | Text data => Text data
  end.

Fixpoint removeBase (doc : list node) : list node :=
  match doc with
  | [] => []
  | c :: rest => if isBase c then removeBase rest else removeBaseIn c :: removeBase rest
  end.

(** The tree that [rewriteHtmlContent] serializes. *)
Definition rewriteDocument (baseUrl : URL) (doc : list node) : list node :=
  removeBase (rewriteNode baseUrl <$> doc).

Definition nodeAttribs (n : node) : gmap jsstring jsstring :=
  match n with
  | Element _ attribs _ => attribs
  | Text _ => ∅
  end.

(** The tag names of the elements of a tree, in document order. *)
Fixpoint elementNames (n : node) : list jsstring :=
  match n with
  | Element tagName _ children => tagName :: concat (elementNames <$> children)
  | Text _ => []
  end.

Definition documentElementNames (doc : list node) : list jsstring :=
  concat (elementNames <$> doc).

(** Whether the selector of the pass matches the node or a node below it. *)
Fixpoint anySelected (n : node) : bool :=
  match n with
  | Element tagName attribs children =>
      selected tagName attribs || existsb anySelected children
  | Text _ => false
  end.

(** [None] when [new URL(originalUrl)] throws. *)
Definition rewriteHtmlContent (html originalUrl : jsstring) : option jsstring :=
  let doc := cheerio_load env html in
  match URL_new env originalUrl with
  | Some baseUrl => Some (cheerio_html env (rewriteDocument baseUrl doc))
  | None => None
  end.

(** *** The handler of [/proxy] *)

(** The texts of the error objects passed to [res.send]. *)
Inductive ErrorBody :=
  | MissingUrlParameter
  | InvalidUrlFormat
  | ProtocolNotAllowed
  | AccessFailed (message : jsstring)
  | AccessTimedOut (targetUrl : jsstring).

Inductive Body :=
  | SentError (error : ErrorBody)
  | EndText (content : jsstring)
  | EndBuffer (bytes : list Z).

(** An outbound header: set by the handler through [setHeader] with the
    name and value given, or written by Express inside [res.send], with a
    value that Express computes and that is not modelled. *)
Inductive HeaderEntry :=
  | HeaderSet (name value : jsstring)
  | HeaderBySend.

(** The Express response object: the headers are kept under their
    lower-cased names, one entry each. *)
Record ServerResponse := mkServerResponse {
  statusCode : Z;
  outHeaders : gmap jsstring HeaderEntry;
  body : option Body
}.

(** [req.query.url] (absent, or a string), [req.method],
    [JSON.stringify(req.body)] when [req.body] has at least one key, and
    [req.headers['content-type']]. *)
Record Request := mkRequest {
  query_url : option jsstring;
  req_method : jsstring;
  req_body : option jsstring;
  req_content_type : option jsstring
}.

Inductive Event :=
  | ConsoleLog (method targetUrl : jsstring)
  | ConsoleError (method : jsstring) (error : ErrorBody)
  | FetchCall (input : jsstring) (init : FetchOptions).

Definition res_status (code : Z) (res : ServerResponse) : ServerResponse :=
  mkServerResponse code (outHeaders res) (body res).

Definition res_setHeader (name value : jsstring) (res : ServerResponse) : ServerResponse :=
  mkServerResponse (statusCode res)
    (<[toLowerCase env name := HeaderSet name value]> (outHeaders res)) (body res).

(** The headers after [res.send(object)]: Content-Type is set (to JSON when
    there is none, and with the charset made utf-8 in every case), ETag is
    generated unless the response has one, and Content-Length is set.  The
    statuses of the handler's calls (400, 403, 500, 504) are left alone. *)
Definition sendHeaders (hs : gmap jsstring HeaderEntry) : gmap jsstring HeaderEntry :=
  let typed := <[lit "content-type" := HeaderBySend]> hs in
  let tagged :=
    match typed !! lit "etag" with
    | Some _ => typed
    | None => <[lit "etag" := HeaderBySend]> typed
    end in
  <[lit "content-length" := HeaderBySend]> tagged.

Definition res_send (error : ErrorBody) (res : ServerResponse) : ServerResponse :=
  mkServerResponse (statusCode res) (sendHeaders (outHeaders res)) (Some (SentError error)).



Definition res_end (b : Body) (res : ServerResponse) : ServerResponse :=
  mkServerResponse (statusCode res) (outHeaders res) (Some b).

Definition userAgent : jsstring :=
  lit "Mozilla/5.0 (Windows NT 10.0; Win64; x64) AppleWebKit/537.36 (KHTML, like Gecko) Chrome/120.0.0.0 Safari/537.36".

Definition fetchOptions (req : Request) : FetchOptions :=
  match req_body req with
  | Some json =>
      mkFetchOptions (req_method req) 15000
        ((lit "User-Agent", userAgent) ::
         match req_content_type req with
         | Some (c :: ct) => [(lit "Content-Type", c :: ct)]
         | _ => []
         end)
        (Some json)
  | None => mkFetchOptions (req_method req) 15000 [(lit "User-Agent", userAgent)] None
  end.

Definition excludedHeaders : list jsstring :=
  [lit "connection"; lit "content-encoding"; lit "transfer-encoding"; lit "content-length"].

(** The [forEach] over the upstream headers. *)
Definition relayHeaders (hs : list (jsstring * jsstring)) (res : ServerResponse)
    : ServerResponse :=
  fold_left
    (fun r '(name, value) =>
       if negb (arrayIncludes excludedHeaders (toLowerCase env name))
       then res_setHeader name value r else r)
    hs res.

(** [response.headers.get(name)] for a lower-case [name]. *)
Definition headersGet (hs : list (jsstring * jsstring)) (name : jsstring) : option jsstring :=
  match list_find (fun p => p.1 = name) hs with
  | Some (_, (_, value)) => Some value
  | None => None
  end.

(** [error.name === 'TimeoutError' || error.name === 'AbortError']. *)
Definition isTimeout (name : jsstring) : bool :=
  bool_decide (name = lit "TimeoutError") || bool_decide (name = lit "AbortError").

(** The [catch] block. *)
Definition catchBlock (req : Request) (targetUrl name message : jsstring)
    (res : ServerResponse) : ServerResponse * list Event :=
  let '(errorMessage, code) :=
    if isTimeout name
    then (AccessTimedOut targetUrl, 504)
    else (AccessFailed message, 500) in
  (res_send errorMessage (res_status code res), [ConsoleError (req_method req) errorMessage]).

(** What follows a fulfilled [fetch] inside the [try] block. *)
Definition relay (req : Request) (targetUrl : jsstring) (response : Response)
    (res : ServerResponse) : ServerResponse * list Event :=
  let res1 := res_status (status response) res in
  let contentType := headersGet (headers response) (lit "content-type") in
  let res2 := relayHeaders (headers response) res1 in
  let isType t := match contentType with
                  | Some ct => includes ct t
                  | None => false
                  end in
  if isType (lit "text/html") then
    match arrayBuffer response with
    | Fulfilled contentBuffer =>
        match rewriteHtmlContent (Buffer_toString env contentBuffer) targetUrl with
        | Some content => (res_end (EndText content) res2, [])
        | None => catchBlock req targetUrl (lit "TypeError") (lit "Invalid URL") res2
        end
    | Rejected name message => catchBlock req targetUrl name message res2
    end
  else if isType (lit "text/css") then
    match text response with
    | Fulfilled cssContent =>
        match URL_new env targetUrl with
        | Some baseUrl => (res_end (EndText (rewriteCss baseUrl cssContent)) res2, [])
        | None => catchBlock req targetUrl (lit "TypeError") (lit "Invalid URL") res2
        end
    | Rejected name message => catchBlock req targetUrl name message res2
    end
  else
    match arrayBuffer response with
    | Fulfilled buffer => (res_end (EndBuffer buffer) res2, [])
    | Rejected name message => catchBlock req targetUrl name message res2
    end.

(** [app.all('/proxy', ...)]: the response and the trace of console and
    network events, in order. *)
Definition handler (req : Request) (res : ServerResponse) : ServerResponse * list Event :=
  match query_url req with
  | Some ((_ :: _) as targetUrl) =>
      match URL_new env targetUrl with
      | None => (res_send InvalidUrlFormat (res_status 400 res), [])
      | Some urlObj =>
          if negb (bool_decide (protocol urlObj = lit "http:"))
             && negb (bool_decide (protocol urlObj = lit "https:"))
          then (res_send ProtocolNotAllowed (res_status 403 res), [])
          else
            let init := fetchOptions req in
            let '(res', events) :=
              match fetch env targetUrl init with
              | Fulfilled response => relay req targetUrl response res
              | Rejected name message => catchBlock req targetUrl name message res
              end in
            (res', ConsoleLog (req_method req) targetUrl :: FetchCall targetUrl init :: events)
      end
  | _ => (res_send MissingUrlParameter (res_status 400 res), [])
  end.

(** The three ways in which a request fails validation. *)
Inductive ValidationFailure (req : Request) : Prop :=
  | UrlMissing :
      query_url req = None \/ query_url req = Some [] -> ValidationFailure req
  | UrlUnparseable (targetUrl : jsstring) :
      query_url req = Some targetUrl -> URL_new env targetUrl = None ->
      ValidationFailure req
  | SchemeDisallowed (targetUrl : jsstring) (urlObj : URL) :
      query_url req = Some targetUrl -> URL_new env targetUrl = Some urlObj ->
      protocol urlObj <> lit "http:" -> protocol urlObj <> lit "https:" ->
      ValidationFailure req.

End WithPlatform.

End Server.

(** ** The srcset pass as the specification words it

    Split the value on commas into entries; split each entry on white space
    into a path and its descriptors; put the proxied form in the place of
    the path and leave the descriptors; an entry whose path is a data: URI,
    or whose path cannot be rewritten, stays as it is; join the entries with
    a comma and a space. *)

Module SrcsetSpec.

Definition entry (env : Platform) (baseUrl : URL) (source : jsstring) : jsstring :=
  match splitWs (trim source) with
  | path :: descriptors =>
      if startsWith path (lit "data:") then source
      else match Server.proxiedUrl env path baseUrl with
           | Some proxied => join (lit " ") (proxied :: descriptors)
           | None => source
           end
  | [] => source
  end.

Definition srcset (env : Platform) (baseUrl : URL) (value : jsstring) : jsstring :=
  join (lit ", ") (entry env baseUrl <$> splitOn 44 value).

End SrcsetSpec.

(** ** The earlier revision of the server (header forwarding, streaming)

    Only what differs from [Server] and is compared with it below. *)

Module Revision.

Section WithPlatform.

Variable env : Platform.

(** [$element.attr('method') ? $element.attr('method').toUpperCase() : 'GET']. *)
Definition methodUpperOrGet (attribs : gmap jsstring jsstring) : jsstring :=
  match Server.attr attribs (lit "method") with
  | Server.AttrString (c :: m) => toUpperCase env (c :: m)
  | _ => lit "GET"
  end.

Definition rewriteUrlAttribute (baseUrl : URL) (tagName : jsstring)
    (attribs : gmap jsstring jsstring) : gmap jsstring jsstring :=
  let attribute := Server.urlAttribute tagName in
  match Server.attr attribs attribute with
  | Server.AttrString ((_ :: _) as originalPath) =>
      if negb (startsWith originalPath (lit "data:")) then
        match Server.proxiedUrl env originalPath baseUrl with
        | Some proxied =>
            let attribs1 := <[attribute := proxied]> attribs in
            if bool_decide (tagName = lit "form")
            then <[lit "method" := methodUpperOrGet attribs1]> attribs1
            else attribs1
        | None => attribs
        end
      else attribs
  | _ => attribs
  end.

Definition blockedRequestHeaders : list jsstring :=
  [lit "host"; lit "connection"; lit "content-length"; lit "transfer-encoding";
   lit "referer"].

(** The object built from [Object.entries(req.headers)] and the line for
    Range; [req.headers] is a map from names to values, and so is the
    result. *)
Definition headersToSend (reqHeaders : gmap jsstring jsstring) : gmap jsstring jsstring :=
  let copied :=
    filter (fun kv => toLowerCase env kv.1 ∉ blockedRequestHeaders) reqHeaders in
  match reqHeaders !! lit "range" with
  | Some ((_ :: _) as range) => <[lit "Range" := range]> copied
  | _ => copied
  end.

(** [['POST', 'PUT', 'PATCH'].includes(req.method)]: whether the request is
    passed on as the body. *)
Definition forwardsBody (method : jsstring) : bool :=
  arrayIncludes [lit "POST"; lit "PUT"; lit "PATCH"] method.

(** The [catch] block: every failure of the upstream exchange is a 502. *)
Definition catchBlock (message : jsstring) (res : Server.ServerResponse)
    : Server.ServerResponse :=
  Server.res_send (Server.AccessFailed message) (Server.res_status 502 res).

End WithPlatform.

End Revision.

(** ** A sample platform

    A finite table of results of the WHATWG URL parser, ASCII case mappings
    and canned upstream answers, to run the definitions on. *)

Module Sample.

Definition schemeOf (h : jsstring) : jsstring :=
  match splitOn 58 h with
  | scheme :: _ => scheme ++ [58]
  | [] => []
  end.

Definition url (h : jsstring) : URL := mkURL h (schemeOf h).

Definition absolute : list (jsstring * jsstring) :=
  [ (lit "http://x.test/page", lit "http://x.test/page");
    (lit "http://x.test/css/a.css", lit "http://x.test/css/a.css");
    (lit "http://x.test", lit "http://x.test/");
    (lit "https://y.test/b.js", lit "https://y.test/b.js");
    (lit "http://down.test/", lit "http://down.test/");
    (lit "http://slow.test/", lit "http://slow.test/");
    (lit "ftp://x.test/f", lit "ftp://x.test/f") ].

Definition relative : list (jsstring * jsstring * jsstring) :=
  [ (lit "/a.png", lit "http://x.test/page", lit "http://x.test/a.png");
    (lit "/submit", lit "http://x.test/page", lit "http://x.test/submit");
    (lit "b.png", lit "http://x.test/page", lit "http://x.test/b.png");
    (lit "", lit "http://x.test/css/a.css", lit "http://x.test/css/a.css");
    (lit "", lit "http://x.test/page", lit "http://x.test/page");
    (lit "../img/bg.png", lit "http://x.test/css/a.css", lit "http://x.test/img/bg.png");
    (lit "httpdocs/a.png", lit "http://x.test/css/a.css", lit "http://x.test/css/httpdocs/a.png");
    (lit "httpdocs/a.png", lit "http://x.test/page", lit "http://x.test/httpdocs/a.png");
    (lit "/proxy?url=https%3A%2F%2Fy.test%2Fb.js", lit "http://x.test/page",
     lit "http://x.test/proxy?url=https%3A%2F%2Fy.test%2Fb.js") ].

Definition URL_new (input : jsstring) : option URL :=
  match list_find (fun p => p.1 = input) absolute with
  | Some (_, (_, h)) => Some (url h)
  | None => None
  end.

(** An absolute input resolves to itself whatever the base. *)
Definition URL_new_base (input : jsstring) (base : URL) : option URL :=
  match list_find (fun p => p.1 = (input, href base)) relative with
  | Some (_, (_, h)) => Some (url h)
  | None => URL_new input
  end.

Definition asciiLower (s : jsstring) : jsstring :=
  (fun c => if between 65 90 c then c + 32 else c) <$> s.

Definition asciiUpper (s : jsstring) : jsstring :=
  (fun c => if between 97 122 c then c - 32 else c) <$> s.

(** The text of a small page and the tree cheerio builds from it. *)
Definition pageText : jsstring :=
  lit "<base href=" ++ [34] ++ lit "http://x.test/" ++ [34] ++ lit ">"
  ++ lit "<img src=" ++ [34] ++ lit "/a.png" ++ [34] ++ lit ">".

Definition pageTree : list node :=
  [Element (lit "html") ∅
     [Element (lit "head") ∅
        [Element (lit "base") {[ lit "href" := lit "http://x.test/" ]} []];
      Element (lit "body") ∅
        [Element (lit "img") {[ lit "src" := lit "/a.png" ]} []]]].

Definition emptyTree : list node :=
  [Element (lit "html") ∅ [Element (lit "head") ∅ []; Element (lit "body") ∅ []]].

(** [cheerio.load] on the texts of the table; any other text is taken as
    the empty document. *)
Definition load (html : jsstring) : list node :=
  if bool_decide (html = pageText) then pageTree else emptyTree.

Definition voidTags : list jsstring :=
  [lit "base"; lit "br"; lit "hr"; lit "img"; lit "input"; lit "link"; lit "meta";
   lit "source"].

Definition attributeText (kv : jsstring * jsstring) : jsstring :=
  lit " " ++ kv.1 ++ lit "=" ++ [34] ++ kv.2 ++ [34].

(** The serializer, for attribute values and texts that need no escaping. *)
Fixpoint outerHTML (n : node) : jsstring :=
  match n with
  | Element tagName attribs children =>
      lit "<" ++ tagName ++ concat (attributeText <$> map_to_list attribs) ++ lit ">"
      ++ (if bool_decide (tagName ∈ voidTags) then []
          else concat (outerHTML <$> children) ++ lit "</" ++ tagName ++ lit ">")
  | Text data => data
  end.

Definition html (doc : list node) : jsstring := concat (outerHTML <$> doc).

Definition page : Response :=
  mkResponse 200
    [ (lit "content-length", lit "120"); (lit "content-type", lit "text/html; charset=utf-8");
      (lit "x-frame-options", lit "DENY") ]
    (Fulfilled pageText) (Fulfilled pageText).


Definition fetch (input : jsstring) (init : FetchOptions) : settled Response :=
  if bool_decide (input = lit "http://down.test/")
  then Rejected (lit "TypeError") (lit "fetch failed")
  else if bool_decide (input = lit "http://slow.test/")
  then Rejected (lit "TimeoutError") (lit "The operation was aborted due to timeout")
  else Fulfilled page.

Definition platform : Platform :=
  mkPlatform URL_new URL_new_base load html fetch
    (fun bytes => bytes) asciiLower asciiUpper.

Definition image : Response :=
  mkResponse 206
    [ (lit "content-range", lit "bytes 0-3/10"); (lit "content-type", lit "image/png") ]
    (Fulfilled [137; 80; 78; 71]) (Fulfilled []).


(** The sample platform with an upstream that always answers [r]. *)
Definition serving (r : Response) : Platform :=
  mkPlatform URL_new URL_new_base load html (fun _ _ => Fulfilled r)
    (fun bytes => bytes) asciiLower asciiUpper.

Definition xPage : URL := url (lit "http://x.test/page").
Definition xCss : URL := url (lit "http://x.test/css/a.css").

End Sample.


(** ** Facts about the built-ins *)

Section EncodeDecode.

(** Case analysis on every integer comparison in the goal. *)
Ltac zcases :=
  repeat match goal with
    | |- context [?a <=? ?b] => destruct (Z.leb_spec a b)
    | |- context [?a <? ?b] => destruct (Z.ltb_spec a b)
    | |- context [?a =? ?b] => destruct (Z.eqb_spec a b)
    end; simpl; try reflexivity; try lia.

Lemma hexValue_hexDigit d : 0 <= d < 16 -> hexValue (hexDigit d) = Some d.
Proof.
  intros Hd. unfold hexValue, hexDigit, between.
  destruct (Z.ltb_spec d 10); zcases; f_equal; lia.
Qed.

Lemma readEscape_percentOctet b r :
  0 <= b < 256 -> readEscape (percentOctet b ++ r) = Some (b, r).
Proof.
  intros Hb. unfold percentOctet, readEscape. simpl.
  rewrite !hexValue_hexDigit.
  - do 2 f_equal. pose proof (Z.div_mod b 16). lia.
  - apply Z.mod_pos_bound. lia.
  - split; [apply Z.div_pos; lia | apply Z.div_lt_upper_bound; lia].
Qed.

Lemma percentOctets_cons b bs : percentOctets (b :: bs) = percentOctet b ++ percentOctets bs.
Proof. reflexivity. Qed.

Lemma readContinuations_percentOctets bs r :
  Forall (fun b => 0 <= b < 256) bs ->
  readContinuations (length bs) (percentOctets bs ++ r) = Some (bs, r).
Proof.
  induction 1 as [|b bs Hb _ IH]; [reflexivity|].
  rewrite percentOctets_cons, <- app_assoc.
  change (length (b :: bs)) with (S (length bs)). cbn [readContinuations].
  rewrite readEscape_percentOctet by assumption. rewrite IH. reflexivity.
Qed.

(** One turn of the loop on an escape. *)
Lemma DecodeLoop_escape preserve fuel b bs r :
  0 <= b < 256 ->
  DecodeLoop preserve (S fuel) (percentOctets (b :: bs) ++ r) =
  match leadingOnes b with
  | O => (fun t => (if preserve b then percentOctet b else [b]) ++ t)
           <$> DecodeLoop preserve fuel (percentOctets bs ++ r)
  | S O => None
  | S (S (S (S (S _)))) => None
  | S n' =>
      match readContinuations n' (percentOctets bs ++ r) with
      | None => None
      | Some (cs, rest2) =>
          match utf8Decode (b :: cs) with
          | None => None
          | Some cp => (fun t => UTF16EncodeCodePoint cp ++ t) <$> DecodeLoop preserve fuel rest2
          end
      end
  end.
Proof.
  intros Hb. rewrite percentOctets_cons, <- app_assoc.
  pose proof (readEscape_percentOctet b (percentOctets bs ++ r) Hb) as He.
  unfold percentOctet in *. simpl in He. simpl.
  destruct (hexValue (hexDigit (b / 16))) as [x|]; [|discriminate].
  destruct (hexValue (hexDigit (b mod 16))) as [y|]; [|discriminate].
  injection He as ->. reflexivity.
Qed.

Lemma utf8Encode_octets cp :
  scalar cp -> Forall (fun b => 0 <= b < 256) (utf8Encode cp).
Proof.
  intros [Hr _]. unfold utf8Encode.
  pose proof (Z.div_mod cp 64). pose proof (Z.mod_pos_bound cp 64).
  pose proof (Z.mod_pos_bound (cp / 64) 64). pose proof (Z.mod_pos_bound (cp / 4096) 64).
  assert (0 <= cp / 64 <= cp) by (split; [apply Z.div_pos; lia | apply Z.div_le_upper_bound; lia]).
  assert (cp / 64 < 2048 -> 0 <= cp / 64 /\ True) by lia.
  assert (cp < 2048 -> cp / 64 < 32) by (intros; apply Z.div_lt_upper_bound; lia).
  assert (cp < 65536 -> cp / 4096 < 16) by (intros; apply Z.div_lt_upper_bound; lia).
  assert (0 <= cp / 4096) by (apply Z.div_pos; lia).
  assert (cp / 262144 < 5) by (apply Z.div_lt_upper_bound; lia).
  assert (0 <= cp / 262144) by (apply Z.div_pos; lia).
  zcases; repeat constructor; lia.
Qed.

Lemma leadingOnes_utf8 cp :
  scalar cp ->
  leadingOnes (hd 0 (utf8Encode cp)) =
  if cp <? 128 then 0%nat else length (utf8Encode cp).
Proof.
  intros [Hr _]. unfold utf8Encode, leadingOnes.
  assert (cp < 2048 -> cp / 64 < 32) by (intros; apply Z.div_lt_upper_bound; lia).
  assert (cp < 65536 -> cp / 4096 < 16) by (intros; apply Z.div_lt_upper_bound; lia).
  assert (cp / 262144 < 5) by (apply Z.div_lt_upper_bound; lia).
  assert (0 <= cp / 64) by (apply Z.div_pos; lia).
  assert (0 <= cp / 4096) by (apply Z.div_pos; lia).
  assert (0 <= cp / 262144) by (apply Z.div_pos; lia).
  destruct (Z.ltb_spec cp 128); [simpl; zcases|].
  destruct (Z.ltb_spec cp 2048); [simpl; zcases|].
  destruct (Z.ltb_spec cp 65536); simpl; zcases.
Qed.

Lemma utf8Decode_utf8Encode cp :
  scalar cp -> 128 <= cp -> utf8Decode (utf8Encode cp) = Some cp.
Proof.
  intros [Hr Hs] Hlo. unfold utf8Encode.
  pose proof (Z.mod_pos_bound cp 64). pose proof (Z.mod_pos_bound (cp / 64) 64).
  pose proof (Z.mod_pos_bound (cp / 4096) 64).
  pose proof (Z.div_mod cp 64). pose proof (Z.div_mod (cp / 64) 64).
  pose proof (Z.div_mod (cp / 4096) 64).
  assert (cp / 64 / 64 = cp / 4096) as E1 by (rewrite Z.div_div by lia; reflexivity).
  assert (cp / 4096 / 64 = cp / 262144) as E2 by (rewrite Z.div_div by lia; reflexivity).
  rewrite E1 in *. rewrite E2 in *.
  destruct (Z.ltb_spec cp 128); [lia|].
  destruct (Z.ltb_spec cp 2048); [|destruct (Z.ltb_spec cp 65536)];
    unfold utf8Decode, isContinuation, between; zcases; f_equal; lia.
Qed.

(** One turn of the loop on the escapes of one code point. *)
Lemma DecodeLoop_codepoint preserve fuel cp r :
  scalar cp -> (cp < 128 -> preserve cp = false) ->
  DecodeLoop preserve (S fuel) (percentOctets (utf8Encode cp) ++ r) =
  (fun t => UTF16EncodeCodePoint cp ++ t) <$> DecodeLoop preserve fuel r.
Proof.
  intros Hs Hp.
  pose proof (utf8Encode_octets cp Hs) as Hoct.
  pose proof (leadingOnes_utf8 cp Hs) as Hlead.
  pose proof (utf8Decode_utf8Encode cp Hs) as Hdec.
  assert (UTF16EncodeCodePoint cp = if cp <? 65536 then [cp] else UTF16EncodeCodePoint cp) as Hu.
  { destruct (Z.ltb_spec cp 65536); [|reflexivity].
    unfold UTF16EncodeCodePoint. destruct (Z.leb_spec cp 65535); [reflexivity|lia]. }
  destruct (utf8Encode cp) as [|b bs] eqn:E.
  { unfold utf8Encode in E. repeat case_match; discriminate. }
  inversion Hoct as [|? ? Hb Hbs]; subst.
  rewrite DecodeLoop_escape by assumption. simpl in Hlead. rewrite Hlead.
  destruct (Z.ltb_spec cp 128) as [Hlt|Hge].
  - unfold utf8Encode in E. destruct (Z.ltb_spec cp 128); [|lia].
    injection E as <- <-. rewrite Hp by assumption. simpl.
    rewrite Hu. destruct (Z.ltb_spec cp 65536); [reflexivity|lia].
  - assert (exists n, length bs = S n /\ (n < 3)%nat) as (n & Hn & Hn3).
    { unfold utf8Encode in E. repeat case_match; try lia; injection E as <- <-;
        simpl; eexists; (split; [reflexivity|lia]). }
    simpl length. rewrite Hn.
    replace (S n) with (length bs) by assumption.
    rewrite readContinuations_percentOctets by assumption.
    rewrite Hdec by lia.
    destruct n as [|[|[|n]]]; try lia; reflexivity.
Qed.

Lemma percentOctets_utf8_length cp : (1 <= length (percentOctets (utf8Encode cp)))%nat.
Proof. unfold utf8Encode. repeat case_match; simpl; lia. Qed.

Lemma UTF16EncodeCodePoint_pair hi lo :
  isLeadingSurrogate hi = true -> isTrailingSurrogate lo = true ->
  scalar (surrogatePair hi lo) /\ 128 <= surrogatePair hi lo /\
  UTF16EncodeCodePoint (surrogatePair hi lo) = [hi; lo].
Proof.
  unfold isLeadingSurrogate, isTrailingSurrogate, between, surrogatePair, scalar.
  intros [H1 H2]%andb_prop [H3 H4]%andb_prop.
  apply Z.leb_le in H1, H2, H3, H4.
  split; [lia|]. split; [lia|].
  unfold UTF16EncodeCodePoint. destruct (Z.leb_spec ((hi - 55296) * 1024 + (lo - 56320) + 65536) 65535); [lia|].
  replace ((hi - 55296) * 1024 + (lo - 56320) + 65536 - 65536)
    with ((lo - 56320) + (hi - 55296) * 1024) by lia.
  rewrite Z.div_add, Z.mod_add by lia.
  rewrite Z.div_small, Z.mod_small by lia. f_equal; [lia|f_equal; lia].
Qed.

Lemma UTF16EncodeCodePoint_unit c :
  0 <= c < 65536 -> isLeadingSurrogate c = false -> isTrailingSurrogate c = false ->
  scalar c /\ UTF16EncodeCodePoint c = [c].
Proof.
  unfold isLeadingSurrogate, isTrailingSurrogate, between, scalar, UTF16EncodeCodePoint.
  intros Hc H1 H2. apply andb_false_iff in H1, H2.
  rewrite !Z.leb_gt in H1, H2.
  split; [lia|]. destruct (Z.leb_spec c 65535); [reflexivity|lia].
Qed.

(** Decoding undoes encoding, whatever set of code units is left unescaped,
    as long as the percent sign itself is escaped. *)
Lemma Encode_DecodeLoop unescaped :
  unescaped 37 = false ->
  forall n s e, (length s <= n)%nat -> code_units s -> Encode unescaped s = Some e ->
  forall fuel, (length e <= fuel)%nat -> DecodeLoop (fun _ => false) fuel e = Some s.
Proof.
  intros Hpct. induction n as [|n IH]; intros s e Hlen Hcu Henc fuel Hfuel.
  { destruct s; [|simpl in Hlen; lia]. injection Henc as <-. destruct fuel; reflexivity. }
  destruct s as [|c rest]; [injection Henc as <-; destruct fuel; reflexivity|].
  inversion Hcu as [|? ? Hc Hrest]; subst. simpl in Hlen.
  cbn [Encode] in Henc.
  destruct (unescaped c) eqn:Hun.
  - destruct (Encode unescaped rest) as [e'|] eqn:He'; [|discriminate].
    injection Henc as <-. simpl in Hfuel. destruct fuel as [|fuel]; [lia|].
    cbn [DecodeLoop]. destruct (Z.eqb_spec c 37) as [->|_]; [congruence|].
    rewrite (IH rest e') by (assumption || lia). reflexivity.
  - destruct (isTrailingSurrogate c) eqn:Htr; [discriminate|].
    destruct (isLeadingSurrogate c) eqn:Hld.
    + destruct rest as [|c2 rest']; [discriminate|].
      destruct (isTrailingSurrogate c2) eqn:Htr2; [|discriminate].
      destruct (Encode unescaped rest') as [e'|] eqn:He'; [|discriminate].
      injection Henc as <-.
      destruct (UTF16EncodeCodePoint_pair c c2 Hld Htr2) as (Hsc & Hge & Hu).
      pose proof (percentOctets_utf8_length (surrogatePair c c2)).
      rewrite length_app in Hfuel. destruct fuel as [|fuel]; [lia|].
      rewrite DecodeLoop_codepoint by (assumption || lia).
      inversion Hrest; subst. simpl in Hlen.
      rewrite (IH rest' e') by (assumption || lia). rewrite Hu. reflexivity.
    + destruct (Encode unescaped rest) as [e'|] eqn:He'; [|discriminate].
      injection Henc as <-.
      destruct (UTF16EncodeCodePoint_unit c Hc Hld Htr) as (Hsc & Hu).
      pose proof (percentOctets_utf8_length c).
      rewrite length_app in Hfuel. destruct fuel as [|fuel]; [lia|].
      rewrite DecodeLoop_codepoint by (assumption || reflexivity).
      rewrite (IH rest e') by (assumption || lia). rewrite Hu. reflexivity.
Qed.

End EncodeDecode.

(** ** Facts about strings *)

Section Strings.

Lemma startsWith_app (p s : jsstring) : startsWith (p ++ s) p = true.
Proof. induction p as [|a p IH]; [reflexivity|]. simpl. rewrite Z.eqb_refl. exact IH. Qed.

Lemma startsWith_inv (s p : jsstring) : startsWith s p = true -> exists t, s = p ++ t.
Proof.
  revert s. induction p as [|a p IH]; intros s H; [by exists s|].
  destruct s as [|b s]; [discriminate|]. simpl in H.
  apply andb_prop in H as [Hab Hs]. apply Z.eqb_eq in Hab as ->.
  destruct (IH _ Hs) as [t ->]. by exists t.
Qed.

(** A longer prefix implies a shorter one. *)
Lemma startsWith_prefix (s p q : jsstring) :
  startsWith s (p ++ q) = true -> startsWith s p = true.
Proof.
  intros [t ->]%startsWith_inv. rewrite <- app_assoc. apply startsWith_app.
Qed.

(** A boolean test for [ascii_only]. *)
Lemma ascii_only_check (s : jsstring) : forallb (between 0 127) s = true -> ascii_only s.
Proof.
  induction s as [|c s IH]; intros H; [constructor|].
  simpl in H. apply andb_prop in H as [Hc Hs].
  constructor; [|by apply IH].
  unfold between in Hc. apply andb_prop in Hc as [H1 H2].
  apply Z.leb_le in H1, H2. lia.
Qed.

Lemma ascii_code_units (s : jsstring) : ascii_only s -> code_units s.
Proof. intros H. eapply Forall_impl; [exact H|]. intros c Hc. simpl in Hc. lia. Qed.

End Strings.

(** ** Facts about [encodeURIComponent] on URLs *)

Section EncodeURL.

Lemma Encode_ascii unescaped (s : jsstring) : ascii_only s -> is_Some (Encode unescaped s).
Proof.
  induction 1 as [|c s Hc _ [e IH]]; [by eexists|].
  cbn [Encode]. rewrite IH.
  assert (isTrailingSurrogate c = false) as ->.
  { unfold isTrailingSurrogate, between. destruct (Z.leb_spec 56320 c); [lia|reflexivity]. }
  assert (isLeadingSurrogate c = false) as ->.
  { unfold isLeadingSurrogate, between. destruct (Z.leb_spec 55296 c); [lia|reflexivity]. }
  destruct (unescaped c); by eexists.
Qed.

(** [decodeURIComponent] undoes [encodeURIComponent]. *)
Lemma decode_encodeURIComponent (s q : jsstring) :
  code_units s -> encodeURIComponent s = Some q -> decodeURIComponent q = Some s.
Proof.
  intros Hs Hq. unfold decodeURIComponent.
  eapply (Encode_DecodeLoop uriUnescaped); [reflexivity| |exact Hs|exact Hq|]; reflexivity.
Qed.

Lemma encodeURIComponent_ascii (s : jsstring) :
  ascii_only s ->
  exists q, encodeURIComponent s = Some q /\ decodeURIComponent q = Some s.
Proof.
  intros Hs. destruct (Encode_ascii uriUnescaped s Hs) as [q Hq].
  exists q. split; [exact Hq|].
  apply decode_encodeURIComponent; [by apply ascii_code_units|exact Hq].
Qed.

End EncodeURL.

(** ** Facts about the attribute pass *)

Import Server.

Section AttributePass.

Variable env : Platform.

(** Distinct literals are distinct strings. *)
Ltac lit_neq := let H := fresh in intros H; vm_compute in H; discriminate H.

Lemma proxiedUrl_ascii (path : jsstring) (baseUrl u : URL) :
  URL_new_base env path baseUrl = Some u -> ascii_only (href u) ->
  exists q, proxiedUrl env path baseUrl = Some (proxyPrefix ++ q)
            /\ encodeURIComponent (href u) = Some q
            /\ decodeURIComponent q = Some (href u).
Proof.
  intros Hu Ha. destruct (encodeURIComponent_ascii _ Ha) as (q & Hq & Hd).
  exists q. unfold proxiedUrl. rewrite Hu, Hq. auto.
Qed.

Lemma urlAttribute_cases (tagName : jsstring) :
  urlAttribute tagName = lit "href" \/ urlAttribute tagName = lit "action"
  \/ urlAttribute tagName = lit "src" \/ urlAttribute tagName = [].
Proof. unfold urlAttribute. repeat case_bool_decide; auto. Qed.

Lemma urlAttribute_other (tagName : jsstring) :
  urlAttribute tagName <> lit "method" /\ urlAttribute tagName <> lit "srcset"
  /\ urlAttribute tagName <> lit "style".
Proof.
  destruct (urlAttribute_cases tagName) as [-> | [-> | [-> | ->]]];
    repeat split; lit_neq.
Qed.

Lemma attr_lookup (attribs : gmap jsstring jsstring) (name : jsstring) (c : Z) (v : jsstring) :
  name <> [] -> attribs !! name = Some (c :: v) -> attr attribs name = AttrString (c :: v).
Proof. intros Hn Hv. unfold attr. destruct name; [done|]. by rewrite Hv. Qed.

(** The srcset and style passes leave every other attribute alone. *)
Lemma rewriteSrcsetAttribute_other (baseUrl : URL) (tagName : jsstring)
    (attribs : gmap jsstring jsstring) (name : jsstring) :
  name <> lit "srcset" ->
  rewriteSrcsetAttribute env baseUrl tagName attribs !! name = attribs !! name.
Proof.
  intros Hn. unfold rewriteSrcsetAttribute.
  destruct (_ || _); [|done]. destruct (attr _ _) as [[|? ?]| |]; try done.
  by rewrite lookup_insert_ne.
Qed.

Lemma rewriteStyleAttribute_other (baseUrl : URL) (attribs : gmap jsstring jsstring)
    (name : jsstring) :
  name <> lit "style" ->
  rewriteStyleAttribute env baseUrl attribs !! name = attribs !! name.
Proof.
  intros Hn. unfold rewriteStyleAttribute.
  destruct (attr _ _) as [[|? ?]| |]; try done. by rewrite lookup_insert_ne.
Qed.

Lemma rewriteElement_lookup (baseUrl : URL) (tagName : jsstring)
    (attribs : gmap jsstring jsstring) (name : jsstring) :
  name <> lit "srcset" -> name <> lit "style" ->
  rewriteElement env baseUrl tagName attribs !! name
  = rewriteUrlAttribute env baseUrl tagName attribs !! name.
Proof.
  intros H1 H2. unfold rewriteElement.
  by rewrite rewriteStyleAttribute_other, rewriteSrcsetAttribute_other.
Qed.

(** When the guard holds and the [try] body does not throw, the attribute
    becomes the proxied URL. *)
Lemma rewriteUrlAttribute_proxied (baseUrl : URL) (tagName : jsstring)
    (attribs : gmap jsstring jsstring) (v p : jsstring) :
  urlAttribute tagName <> [] ->
  attribs !! urlAttribute tagName = Some v ->
  v <> [] -> startsWith v (lit "data:") = false ->
  proxiedUrl env v baseUrl = Some p ->
  rewriteUrlAttribute env baseUrl tagName attribs !! urlAttribute tagName = Some p.
Proof.
  intros Hattr Hv Hne Hdata Hp. unfold rewriteUrlAttribute.
  destruct v as [|c v]; [done|].
  rewrite (attr_lookup _ _ _ _ Hattr Hv). rewrite Hdata, Hp. simpl.
  destruct (urlAttribute_other tagName) as (Hm & _ & _).
  case_bool_decide.
  - rewrite lookup_insert_ne by done. by rewrite lookup_insert_eq.
  - by rewrite lookup_insert_eq.
Qed.

(** When the guard fails, or the [try] body throws, the element keeps its
    attribute. *)
Lemma rewriteUrlAttribute_unchanged (baseUrl : URL) (tagName : jsstring)
    (attribs : gmap jsstring jsstring) (v : jsstring) :
  attribs !! urlAttribute tagName = Some v ->
  v = [] \/ startsWith v (lit "data:") = true \/ proxiedUrl env v baseUrl = None ->
  rewriteUrlAttribute env baseUrl tagName attribs = attribs.
Proof.
  intros Hv Hcase. unfold rewriteUrlAttribute, attr.
  destruct (urlAttribute tagName) as [|a n]; [done|]. rewrite Hv.
  destruct v as [|c v]; [done|].
  destruct Hcase as [? | [-> | Hp]]; [done|done|].
  destruct (startsWith _ _); [done|]. simpl. by rewrite Hp.
Qed.

(** The attributes of an element after the pass over the document. *)
Lemma rewriteNode_selected (baseUrl : URL) (tagName : jsstring)
    (attribs : gmap jsstring jsstring) (children : list node) :
  selected env tagName attribs = true ->
  nodeAttribs (rewriteNode env baseUrl (Element tagName attribs children))
  = rewriteElement env baseUrl tagName attribs.
Proof. intros Hsel. simpl. by rewrite Hsel. Qed.

Lemma selected_img_source (tagName : jsstring) (attribs : gmap jsstring jsstring) :
  tagName = lit "img" \/ tagName = lit "source" -> selected env tagName attribs = true.
Proof. by intros [-> | ->]. Qed.

End AttributePass.

(** C1, amended: for a reference R held by the URL attribute of a selected
    element, not empty and not a data: URI, and a base URL B such that
    [new URL(R, B)] succeeds, the rewritten attribute is the proxy path
    [/proxy?url=] followed by the percent-encoding of the resolved URL, and
    percent-decoding that query value gives the resolved URL back.  The
    href of a URL object is an ASCII string. *)
Theorem rewrite_decodes_to_resolved
    (env : Platform) (B : URL) (tagName : jsstring)
    (attribs : gmap jsstring jsstring) (children : list node)
    (R : jsstring) (resolved : URL) :
  selected env tagName attribs = true ->
  urlAttribute tagName <> [] ->
  attribs !! urlAttribute tagName = Some R ->
  R <> [] -> startsWith R (lit "data:") = false ->
  URL_new_base env R B = Some resolved ->
  ascii_only (href resolved) ->
  exists q,
    nodeAttribs (rewriteNode env B (Element tagName attribs children))
      !! urlAttribute tagName = Some (lit "/proxy?url=" ++ q)
    /\ encodeURIComponent (href resolved) = Some q
    /\ decodeURIComponent q = Some (href resolved).
Proof.
  intros Hsel Hattr HR Hne Hdata Hres Hascii.
  destruct (proxiedUrl_ascii env R B resolved Hres Hascii) as (q & Hp & Hq & Hd).
  exists q. split; [|by split].
  destruct (urlAttribute_other tagName) as (_ & Hs1 & Hs2).
  rewrite rewriteNode_selected by done.
  rewrite rewriteElement_lookup by done.
  by apply (rewriteUrlAttribute_proxied env B tagName attribs R).
Qed.

Lemma rewrite_decodes_to_resolved_witness :
  exists q,
    nodeAttribs (rewriteNode Sample.platform Sample.xPage
                   (Element (lit "img") {[ lit "src" := lit "/a.png" ]} []))
      !! lit "src" = Some (lit "/proxy?url=" ++ q)
    /\ encodeURIComponent (lit "http://x.test/a.png") = Some q
    /\ decodeURIComponent q = Some (lit "http://x.test/a.png").
Proof.
  apply (rewrite_decodes_to_resolved Sample.platform Sample.xPage (lit "img")
           {[ lit "src" := lit "/a.png" ]} [] (lit "/a.png")
           (Sample.url (lit "http://x.test/a.png"))).
  - vm_compute. reflexivity.
  - vm_compute. discriminate.
  - vm_compute. reflexivity.
  - vm_compute. discriminate.
  - vm_compute. reflexivity.
  - vm_compute. reflexivity.
  - apply ascii_only_check. reflexivity.
Defined.

(** C1 as stated fails on the empty reference: it resolves (to the base
    itself), but the guard of the attribute pass leaves the attribute
    empty, which is not a proxied URL. *)
Lemma empty_reference_is_not_rewritten :
  URL_new_base Sample.platform (lit "") Sample.xPage
  = Some (Sample.url (lit "http://x.test/page"))
  /\ nodeAttribs (rewriteNode Sample.platform Sample.xPage
                    (Element (lit "a") {[ lit "href" := lit "" ]} []))
       !! lit "href" = Some (lit "")
  /\ ~ (exists q,
          nodeAttribs (rewriteNode Sample.platform Sample.xPage
                         (Element (lit "a") {[ lit "href" := lit "" ]} []))
            !! lit "href" = Some (lit "/proxy?url=" ++ q)
          /\ decodeURIComponent q = Some (lit "http://x.test/page")).
Proof.
  split; [vm_compute; reflexivity|]. split; [vm_compute; reflexivity|].
  intros (q & Hq & _). vm_compute in Hq. discriminate Hq.
Qed.

Section AbsoluteReferences.

Variable env : Platform.

(** The attribute pass wraps whatever reference resolves. *)
Lemma rewriteElement_wraps (B : URL) (tagName : jsstring)
    (attribs : gmap jsstring jsstring) (v : jsstring) (resolved : URL) :
  urlAttribute tagName <> [] ->
  attribs !! urlAttribute tagName = Some v ->
  v <> [] -> startsWith v (lit "data:") = false ->
  URL_new_base env v B = Some resolved ->
  ascii_only (href resolved) ->
  exists q, encodeURIComponent (href resolved) = Some q
    /\ rewriteElement env B tagName attribs !! urlAttribute tagName
       = Some (proxyPrefix ++ q).
Proof.
  intros Hattr Hv Hne Hdata Hres Hascii.
  destruct (proxiedUrl_ascii env v B resolved Hres Hascii) as (q & Hp & Hq & _).
  exists q. split; [done|].
  destruct (urlAttribute_other tagName) as (_ & Hs1 & Hs2).
  rewrite rewriteElement_lookup by done.
  by apply (rewriteUrlAttribute_proxied env B tagName attribs v).
Qed.

Lemma http_reference (v : jsstring) :
  startsWith v (lit "http://") = true \/ startsWith v (lit "https://") = true ->
  v <> [] /\ startsWith v (lit "data:") = false /\ startsWith v (lit "http") = true.
Proof.
  intros [[t ->]%startsWith_inv | [t ->]%startsWith_inv]; repeat split; done.
Qed.

(** The replacer of the style and CSS passes gives the match back for a
    reference that starts with http, with two slashes or with data:. *)
Lemma urlReplacer_skips (B : URL) (matched quote path : jsstring) :
  startsWith path (lit "http") = true \/ startsWith path (lit "//") = true
  \/ startsWith path (lit "data:") = true ->
  urlReplacer env B matched quote path = matched.
Proof.
  intros H. unfold urlReplacer.
  destruct H as [-> | [-> | ->]]; by rewrite ?orb_true_r.
Qed.

End AbsoluteReferences.

(** C10: in the rewriting of href, src and action, a value that is already
    an absolute http:// or https:// URL is not skipped: it is replaced with
    [/proxy?url=] followed by its percent-encoded resolution.  The skip of
    absolute references exists only in the replacer of url(...)
    references, which gives such a reference back as it was.  So a second
    pass over a rewritten element wraps its attribute once more. *)
Theorem absolute_attribute_is_wrapped
    (env : Platform) (B : URL) (tagName : jsstring)
    (attribs : gmap jsstring jsstring) (children : list node)
    (v : jsstring) (resolved : URL) :
  selected env tagName attribs = true ->
  urlAttribute tagName <> [] ->
  attribs !! urlAttribute tagName = Some v ->
  startsWith v (lit "http://") = true \/ startsWith v (lit "https://") = true ->
  URL_new_base env v B = Some resolved ->
  ascii_only (href resolved) ->
  exists q,
    encodeURIComponent (href resolved) = Some q
    /\ nodeAttribs (rewriteNode env B (Element tagName attribs children))
         !! urlAttribute tagName = Some (lit "/proxy?url=" ++ q)
    /\ (forall matched quote, urlReplacer env B matched quote v = matched)
    /\ (forall again, URL_new_base env (lit "/proxy?url=" ++ q) B = Some again ->
          ascii_only (href again) ->
          exists q2,
            encodeURIComponent (href again) = Some q2
            /\ rewriteElement env B tagName
                 (nodeAttribs (rewriteNode env B (Element tagName attribs children)))
                 !! urlAttribute tagName
               = Some (lit "/proxy?url=" ++ q2)).
Proof.
  intros Hsel Hattr Hv Habs Hres Hascii.
  destruct (http_reference v Habs) as (Hne & Hdata & Hhttp).
  destruct (rewriteElement_wraps env B tagName attribs v resolved) as (q & Hq & Hw);
    try done.
  rewrite rewriteNode_selected by done.
  exists q. split; [done|]. split; [exact Hw|]. split.
  - intros matched quote. apply urlReplacer_skips. by left.
  - intros again Hagain Hascii2.
    by apply (rewriteElement_wraps env B tagName _ (lit "/proxy?url=" ++ q) again).
Qed.

Lemma absolute_attribute_is_wrapped_witness :
  nodeAttribs (rewriteNode Sample.platform Sample.xPage
                 (Element (lit "script") {[ lit "src" := lit "https://y.test/b.js" ]} []))
    !! lit "src"
  = Some (lit "/proxy?url=https%3A%2F%2Fy.test%2Fb.js")
  /\ urlReplacer Sample.platform Sample.xPage (lit "url(https://y.test/b.js)") []
       (lit "https://y.test/b.js") = lit "url(https://y.test/b.js)"
  /\ rewriteElement Sample.platform Sample.xPage (lit "script")
       (nodeAttribs (rewriteNode Sample.platform Sample.xPage
          (Element (lit "script") {[ lit "src" := lit "https://y.test/b.js" ]} [])))
       !! lit "src"
     = Some (lit "/proxy?url=http%3A%2F%2Fx.test%2Fproxy%3Furl%3Dhttps%253A%252F%252Fy.test%252Fb.js").
Proof.
  destruct (absolute_attribute_is_wrapped Sample.platform Sample.xPage (lit "script")
              {[ lit "src" := lit "https://y.test/b.js" ]} [] (lit "https://y.test/b.js")
              (Sample.url (lit "https://y.test/b.js")))
    as (q & Hq & Hfirst & Hskip & Hsecond).
  - vm_compute. reflexivity.
  - vm_compute. discriminate.
  - vm_compute. reflexivity.
  - right. reflexivity.
  - vm_compute. reflexivity.
  - apply ascii_only_check. reflexivity.
  - vm_compute in Hq. injection Hq as <-.
    split; [exact Hfirst|]. split; [apply Hskip|].
    destruct (Hsecond (Sample.url (lit "http://x.test/proxy?url=https%3A%2F%2Fy.test%2Fb.js")))
      as (q2 & Hq2 & Hagain).
    + vm_compute. reflexivity.
    + apply ascii_only_check. reflexivity.
    + vm_compute in Hq2. injection Hq2 as <-. exact Hagain.
Defined.

(** ** Facts about the removal of base elements *)

Section BaseRemoval.

Lemma node_induction (P : node -> Prop) :
  (forall tagName attribs children, Forall P children -> P (Element tagName attribs children)) ->
  (forall data, P (Text data)) ->
  forall n, P n.
Proof.
  intros HE HT. fix IH 1. intros [tagName attribs children | data]; [|apply HT].
  apply HE. induction children as [|c children IHc]; constructor; [apply IH | apply IHc].
Qed.

Lemma removeBaseIn_Element (tagName : jsstring) (attribs : gmap jsstring jsstring)
    (children : list node) :
  removeBaseIn (Element tagName attribs children) = Element tagName attribs (removeBase children).
Proof. reflexivity. Qed.

Lemma removeBase_names (doc : list node) :
  Forall (fun n => isBase n = false -> lit "base" ∉ elementNames (removeBaseIn n)) doc ->
  lit "base" ∉ documentElementNames (removeBase doc).
Proof.
  unfold documentElementNames.
  induction 1 as [|c doc Hc _ IH]; simpl; [apply not_elem_of_nil|].
  destruct (isBase c) eqn:Hb; [exact IH|].
  simpl. rewrite elem_of_app. intros [H | H]; [by apply Hc | by apply IH].
Qed.

Lemma removeBaseIn_names (n : node) :
  isBase n = false -> lit "base" ∉ elementNames (removeBaseIn n).
Proof.
  induction n as [tagName attribs children IH | data] using node_induction;
    intros Hb; [|apply not_elem_of_nil].
  rewrite removeBaseIn_Element. cbn [elementNames].
  rewrite elem_of_cons. intros [H | H].
  - simpl in Hb. by rewrite bool_decide_eq_false in Hb.
  - by apply (removeBase_names children).
Qed.

End BaseRemoval.

(** C7: the tree that the HTML transformer serializes contains no base
    element, whatever the parsed document and the base URL; the output of
    [rewriteHtmlContent] is the serialization of that tree. *)
Theorem output_has_no_base_element (env : Platform) :
  (forall (B : URL) (doc : list node),
      lit "base" ∉ documentElementNames (rewriteDocument env B doc))
  /\ (forall html originalUrl : jsstring,
        rewriteHtmlContent env html originalUrl
        = (fun B => cheerio_html env (rewriteDocument env B (cheerio_load env html)))
            <$> URL_new env originalUrl).
Proof.
  split.
  - intros B doc. unfold rewriteDocument. apply removeBase_names.
    apply Forall_forall. intros n _. apply removeBaseIn_names.
  - intros html originalUrl. unfold rewriteHtmlContent.
    by destruct (URL_new env originalUrl).
Qed.

(** ** Facts about the handler *)

Section Handler.

Variable env : Platform.

Lemma catchBlock_result (req : Request) (targetUrl name message : jsstring)
    (res : ServerResponse) :
  exists error code,
    catchBlock req targetUrl name message res
    = (res_send error (res_status code res), [ConsoleError (req_method req) error])
    /\ code = (if isTimeout name then 504 else 500).
Proof. unfold catchBlock. destruct (isTimeout name); by do 2 eexists. Qed.



(** A key changes only when a relayed header lower-cases to it. *)
Lemma relayHeaders_unchanged (hs : list (jsstring * jsstring)) (res : ServerResponse)
    (k : jsstring) :
  (forall name value, (name, value) ∈ hs -> toLowerCase env name = k ->
     toLowerCase env name ∈ excludedHeaders) ->
  outHeaders (relayHeaders env hs res) !! k = outHeaders res !! k.
Proof.
  unfold relayHeaders. revert res.
  induction hs as [|[name value] hs IH]; intros res Hk; [done|].
  simpl. rewrite IH.
  - unfold arrayIncludes. case_bool_decide as Hex; simpl; [done|].
    rewrite lookup_insert_ne; [done|].
    intros Heq. apply Hex. apply (Hk name value); [left|done].
  - intros n v Hin. apply (Hk n v). by right.
Qed.

Lemma relayHeaders_app (hs1 hs2 : list (jsstring * jsstring)) (res : ServerResponse) :
  relayHeaders env (hs1 ++ hs2) res = relayHeaders env hs2 (relayHeaders env hs1 res).
Proof. unfold relayHeaders. apply fold_left_app. Qed.

Lemma relayHeaders_copied (before after : list (jsstring * jsstring))
    (name value : jsstring) (res : ServerResponse) :
  toLowerCase env name ∉ excludedHeaders ->
  (forall p, p ∈ after -> toLowerCase env p.1 <> toLowerCase env name) ->
  outHeaders (relayHeaders env (before ++ (name, value) :: after) res)
    !! toLowerCase env name = Some (HeaderSet name value).
Proof.
  intros Hex Hafter. rewrite relayHeaders_app.
  change ((name, value) :: after) with ([(name, value)] ++ after).
  rewrite relayHeaders_app. rewrite relayHeaders_unchanged.
  - unfold relayHeaders, arrayIncludes. simpl.
    rewrite bool_decide_eq_false_2 by done. simpl. apply lookup_insert_eq.
  - intros n v Hin Heq. by destruct (Hafter (n, v) Hin).
Qed.

(** When the lower-cased names are pairwise distinct, as [Headers] yields
    them for every name but set-cookie, every header that is not excluded
    is in the outbound response. *)
Lemma relayHeaders_distinct (hs : list (jsstring * jsstring)) (res : ServerResponse)
    (name value : jsstring) :
  NoDup ((fun p => toLowerCase env p.1) <$> hs) ->
  (name, value) ∈ hs -> toLowerCase env name ∉ excludedHeaders ->
  outHeaders (relayHeaders env hs res) !! toLowerCase env name
  = Some (HeaderSet name value).
Proof.
  intros Hnd Hin Hex. apply list_elem_of_split in Hin as (before & after & ->).
  apply relayHeaders_copied; [done|]. intros p Hp Heq.
  rewrite fmap_app, fmap_cons in Hnd.
  apply NoDup_app in Hnd as (_ & _ & Hnd). apply NoDup_cons in Hnd as [Hnotin _].
  apply Hnotin. simpl. rewrite <- Heq.
  by apply (list_elem_of_fmap_2 (fun p => toLowerCase env p.1)).
Qed.



(** The handler up to the call of [fetch], for a request that passes
    validation. *)
Lemma handler_valid (req : Request) (res : ServerResponse) (targetUrl : jsstring)
    (urlObj : URL) :
  query_url req = Some targetUrl -> targetUrl <> [] ->
  URL_new env targetUrl = Some urlObj ->
  protocol urlObj = lit "http:" \/ protocol urlObj = lit "https:" ->
  handler env req res =
  let '(res', events) :=
    match fetch env targetUrl (fetchOptions req) with
    | Fulfilled response => relay env req targetUrl response res
    | Rejected name message => catchBlock req targetUrl name message res
    end in
  (res', ConsoleLog (req_method req) targetUrl
           :: FetchCall targetUrl (fetchOptions req) :: events).
Proof.
  intros Hq Hne Hu Hp. unfold handler. rewrite Hq.
  destruct targetUrl as [|c t]; [done|]. rewrite Hu.
  destruct Hp as [-> | ->]; reflexivity.
Qed.

(** The status of every outcome of the handler. *)
Lemma handler_invalid (req : Request) (res : ServerResponse) :
  ValidationFailure env req ->
  exists code error,
    handler env req res = (res_send error (res_status code res), [])
    /\ (code = 400 \/ code = 403).
Proof.
  intros Hfail. unfold handler.
  destruct Hfail as [[-> | ->] | targetUrl -> Hu | targetUrl urlObj -> Hu H1 H2].
  - exists 400, MissingUrlParameter. auto.
  - exists 400, MissingUrlParameter. auto.
  - destruct targetUrl; [exists 400, MissingUrlParameter; auto|].
    rewrite Hu. exists 400, InvalidUrlFormat. auto.
  - destruct targetUrl; [exists 400, MissingUrlParameter; auto|].
    rewrite Hu. rewrite !bool_decide_eq_false_2 by done. simpl.
    exists 403, ProtocolNotAllowed. auto.
Qed.

End Handler.

(** C8: a request that fails validation (no url parameter, a url that
    does not parse, a scheme other than http and https) gets its 400 or
    403 answer without any upstream call: the trace of the handler is
    empty, so [fetch] was not called and nothing was awaited, and the answer
    does not depend on what [fetch] would return. *)
Theorem validation_errors_precede_fetch
    (env : Platform) (req : Request) (res : ServerResponse) :
  ValidationFailure env req ->
  (statusCode (handler env req res).1 = 400 \/ statusCode (handler env req res).1 = 403)
  /\ (exists error, body (handler env req res).1 = Some (SentError error))
  /\ (handler env req res).2 = []
  /\ (forall input init, FetchCall input init ∉ (handler env req res).2)
  /\ (forall fetch',
        handler (mkPlatform (URL_new env) (URL_new_base env) (cheerio_load env)
                   (cheerio_html env) fetch' (Buffer_toString env)
                   (toLowerCase env) (toUpperCase env)) req res
        = handler env req res).
Proof.
  intros Hfail.
  destruct (handler_invalid env req res Hfail) as (code & error & Hh & Hcode).
  rewrite Hh. simpl. split; [exact Hcode|]. split; [by eexists|]. split; [done|].
  split; [intros input init; apply not_elem_of_nil|].
  intros fetch'. rewrite <- Hh. unfold handler. simpl.
  destruct Hfail as [[-> | ->] | targetUrl -> Hu | targetUrl urlObj -> Hu H1 H2]; try done.
  - destruct targetUrl; [done|]. by rewrite Hu.
  - destruct targetUrl; [done|]. rewrite Hu.
    by rewrite !bool_decide_eq_false_2 by done.
Qed.

Lemma validation_errors_precede_fetch_witness :
  statusCode (handler Sample.platform
                (mkRequest (Some (lit "ftp://x.test/f")) (lit "GET") None None)
                (mkServerResponse 200 ∅ None)).1 = 403
  /\ (handler Sample.platform
        (mkRequest (Some (lit "ftp://x.test/f")) (lit "GET") None None)
        (mkServerResponse 200 ∅ None)).2 = [].
Proof.
  destruct (validation_errors_precede_fetch Sample.platform
              (mkRequest (Some (lit "ftp://x.test/f")) (lit "GET") None None)
              (mkServerResponse 200 ∅ None)) as (_ & _ & Hev & _).
  - apply (SchemeDisallowed Sample.platform _ (lit "ftp://x.test/f")
             (Sample.url (lit "ftp://x.test/f"))).
    + reflexivity.
    + vm_compute. reflexivity.
    + vm_compute. discriminate.
    + vm_compute. discriminate.
  - split; [vm_compute; reflexivity | exact Hev].
Defined.




(** ** Facts about the srcset pass *)

Section Srcset.

Ltac bool_prop :=
  rewrite ?orb_true_iff, ?andb_true_iff, ?orb_false_iff, ?andb_false_iff,
    ?Z.leb_le, ?Z.ltb_lt, ?Z.eqb_eq, ?Z.leb_gt, ?Z.ltb_ge, ?Z.eqb_neq.

Lemma printable_not_ws (c : Z) : printable c -> isWhiteSpace c = false.
Proof. unfold printable, isWhiteSpace, between. intros H. bool_prop. lia. Qed.

Lemma uriUnescaped_printable (c : Z) : uriUnescaped c = true -> printable c.
Proof.
  unfold uriUnescaped, isAlnum, between, printable. simpl. bool_prop. lia.
Qed.

Lemma percentOctets_printable (bs : list Z) :
  Forall (fun b => 0 <= b < 256) bs -> Forall printable (percentOctets bs).
Proof.
  induction 1 as [|b bs Hb _ IH]; [constructor|].
  rewrite percentOctets_cons. apply Forall_app. split; [|exact IH].
  assert (0 <= b / 16 < 16)
    by (split; [apply Z.div_pos; lia | apply Z.div_lt_upper_bound; lia]).
  pose proof (Z.mod_pos_bound b 16).
  unfold percentOctet, hexDigit, printable.
  repeat constructor; try lia; case_match; lia.
Qed.

Lemma Encode_printable :
  forall n (s e : jsstring), (length s <= n)%nat -> code_units s ->
    Encode uriUnescaped s = Some e -> Forall printable e.
Proof.
  induction n as [|n IH]; intros s e Hlen Hcu Henc.
  { destruct s; [|simpl in Hlen; lia]. injection Henc as <-. constructor. }
  destruct s as [|c rest]; [injection Henc as <-; constructor|].
  inversion Hcu as [|? ? Hc Hrest]; subst. simpl in Hlen. cbn [Encode] in Henc.
  destruct (uriUnescaped c) eqn:Hun.
  - destruct (Encode uriUnescaped rest) as [e'|] eqn:He'; [|discriminate].
    injection Henc as <-. constructor; [by apply uriUnescaped_printable|].
    apply (IH rest); [lia|done|done].
  - destruct (isTrailingSurrogate c) eqn:Htr; [discriminate|].
    destruct (isLeadingSurrogate c) eqn:Hld.
    + destruct rest as [|c2 rest']; [discriminate|].
      destruct (isTrailingSurrogate c2) eqn:Htr2; [|discriminate].
      destruct (Encode uriUnescaped rest') as [e'|] eqn:He'; [|discriminate].
      injection Henc as <-. inversion Hrest; subst. simpl in Hlen.
      destruct (UTF16EncodeCodePoint_pair c c2 Hld Htr2) as (Hsc & _ & _).
      apply Forall_app. split.
      * apply percentOctets_printable. by apply utf8Encode_octets.
      * apply (IH rest'); [lia|done|done].
    + destruct (Encode uriUnescaped rest) as [e'|] eqn:He'; [|discriminate].
      injection Henc as <-.
      destruct (UTF16EncodeCodePoint_unit c Hc Hld Htr) as (Hsc & _).
      apply Forall_app. split.
      * apply percentOctets_printable. by apply utf8Encode_octets.
      * apply (IH rest); [lia|done|done].
Qed.

Lemma trimStart_head (s : jsstring) :
  trimStart s = [] \/ exists c r, trimStart s = c :: r /\ isWhiteSpace c = false.
Proof.
  induction s as [|c s IH]; [by left|]. simpl.
  destruct (isWhiteSpace c) eqn:Hc; [exact IH|]. right. by exists c, s.
Qed.

Lemma trimEnd_endsNonWs (s : jsstring) : endsNonWs s -> trimEnd s = s.
Proof.
  intros (s' & c & -> & Hc). unfold trimEnd.
  rewrite reverse_app, reverse_singleton. simpl. rewrite Hc.
  by rewrite reverse_cons, reverse_involutive.
Qed.

Lemma trimEnd_snoc_ws (s : jsstring) (c : Z) :
  isWhiteSpace c = true -> trimEnd (s ++ [c]) = trimEnd s.
Proof.
  intros Hc. unfold trimEnd. rewrite reverse_app, reverse_singleton. simpl. by rewrite Hc.
Qed.

Lemma trim_shape (s : jsstring) : trim s = [] \/ endsNonWs (trim s).
Proof.
  unfold trim, trimEnd.
  destruct (trimStart_head (reverse (trimStart s))) as [-> | (c & r & -> & Hc)];
    [by left|].
  right. exists (reverse r), c. by rewrite reverse_cons.
Qed.

Lemma endsNonWs_app (a b : jsstring) : endsNonWs b -> endsNonWs (a ++ b).
Proof. intros (s' & c & -> & Hc). exists (a ++ s'), c. by rewrite app_assoc. Qed.

Lemma join_cons (sep x : jsstring) (rest : list jsstring) :
  rest <> [] -> join sep (x :: rest) = x ++ sep ++ join sep rest.
Proof. by destruct rest. Qed.

Lemma join_snoc_ends (sep : jsstring) (xs : list jsstring) (x : jsstring) :
  endsNonWs x -> endsNonWs (join sep (xs ++ [x])).
Proof.
  intros Hx. induction xs as [|y xs IH]; [exact Hx|].
  change ((y :: xs) ++ [x]) with (y :: (xs ++ [x])).
  rewrite join_cons by (by destruct xs). by do 2 apply endsNonWs_app.
Qed.

Lemma splitWsAux_nonempty (s : jsstring) (inSep : bool) (cur : jsstring) :
  splitWsAux inSep cur s <> [].
Proof.
  revert inSep cur. induction s as [|c s IH]; intros inSep cur; [done|].
  simpl. destruct (isWhiteSpace c); [destruct inSep|]; [apply IH|done|apply IH].
Qed.

(** The last piece of a split is what follows the last white space. *)
Lemma splitWsAux_last (s : jsstring) :
  endsNonWs s ->
  forall inSep cur, exists toks tok,
    splitWsAux inSep cur s = toks ++ [tok] /\ endsNonWs tok.
Proof.
  intros (s' & c & -> & Hc).
  induction s' as [|c0 s' IH]; intros inSep cur.
  - simpl. rewrite Hc. exists [], (reverse (c :: cur)). split; [done|].
    exists (reverse cur), c. by rewrite reverse_cons.
  - simpl. destruct (isWhiteSpace c0).
    + destruct inSep.
      * apply IH.
      * destruct (IH true []) as (toks & tok & -> & Htok).
        by exists (reverse cur :: toks), tok.
    + apply IH.
Qed.

Lemma splitWs_trim_descriptors (source path : jsstring) (descriptors : list jsstring) :
  splitWs (trim source) = path :: descriptors ->
  descriptors = [] \/ endsNonWs (join (lit " ") descriptors).
Proof.
  intros Hsplit. destruct (trim_shape source) as [Hnil | Hends].
  - rewrite Hnil in Hsplit. injection Hsplit as _ <-. by left.
  - destruct (splitWsAux_last _ Hends false []) as (toks & tok & Htoks & Htok).
    unfold splitWs in Hsplit. rewrite Htoks in Hsplit.
    destruct toks as [|t toks]; simpl in Hsplit; injection Hsplit as _ <-; [by left|].
    right. by apply join_snoc_ends.
Qed.

Lemma proxied_shape (q : jsstring) :
  Forall printable q ->
  trimStart (proxyPrefix ++ q) = proxyPrefix ++ q /\ endsNonWs (proxyPrefix ++ q).
Proof.
  intros Hq. split; [reflexivity|].
  destruct (list_eq_nil_dec q) as [-> | Hne].
  - by exists (lit "/proxy?url"), 61.
  - apply endsNonWs_app. destruct (exists_last Hne) as (q' & c & ->).
    exists q', c. split; [done|]. apply Forall_app in Hq as [_ Hc].
    apply printable_not_ws. by inversion Hc.
Qed.

(** Trimming the proxied URL followed by a space and the descriptors takes
    the space away when there is no descriptor and nothing otherwise. *)
Lemma trim_proxied (q : jsstring) (descriptors : list jsstring) :
  Forall printable q ->
  descriptors = [] \/ endsNonWs (join (lit " ") descriptors) ->
  trim ((proxyPrefix ++ q) ++ lit " " ++ join (lit " ") descriptors)
  = match descriptors with
    | [] => proxyPrefix ++ q
    | _ => (proxyPrefix ++ q) ++ lit " " ++ join (lit " ") descriptors
    end.
Proof.
  intros Hq Hdesc. destruct (proxied_shape q Hq) as (_ & Hend).
  assert (forall t, trimStart ((proxyPrefix ++ q) ++ t) = (proxyPrefix ++ q) ++ t) as Hstart
    by reflexivity.
  unfold trim. rewrite Hstart.
  destruct Hdesc as [-> | Hdesc].
  - change (lit " " ++ join (lit " ") []) with [32].
    rewrite trimEnd_snoc_ws by reflexivity. by apply trimEnd_endsNonWs.
  - destruct descriptors as [|d ds]; [by destruct Hdesc as ([|? ?] & ? & ? & ?)|].
    apply trimEnd_endsNonWs. by do 2 apply endsNonWs_app.
Qed.

End Srcset.

Section SrcsetPass.

Variable env : Platform.
Variable baseUrl : URL.

(** Strings are sequences of 16-bit code units, the href of a URL too. *)
Hypothesis href_code_units :
  forall path u, URL_new_base env path baseUrl = Some u -> code_units (href u).

Lemma proxiedUrl_printable (path p : jsstring) :
  proxiedUrl env path baseUrl = Some p ->
  exists q, p = proxyPrefix ++ q /\ Forall printable q.
Proof.
  unfold proxiedUrl. destruct (URL_new_base env path baseUrl) as [u|] eqn:Hu; [|done].
  destruct (encodeURIComponent (href u)) as [q|] eqn:Hq; [|done].
  intros [= <-]. exists q. split; [done|].
  apply (Encode_printable (length (href u)) (href u)); [done| |done].
  by apply (href_code_units path).
Qed.

Lemma rewriteSrcsetEntry_spec (source : jsstring) :
  rewriteSrcsetEntry env baseUrl source = SrcsetSpec.entry env baseUrl source.
Proof.
  unfold rewriteSrcsetEntry, SrcsetSpec.entry.
  destruct (splitWs (trim source)) as [|path descriptors] eqn:Hsplit.
  { destruct (splitWsAux_nonempty _ _ _ Hsplit). }
  cbn [hd tail]. destruct (startsWith path (lit "data:")); [done|].
  destruct (proxiedUrl env path baseUrl) as [p|] eqn:Hp; [|done].
  destruct (proxiedUrl_printable path p Hp) as (q & -> & Hq).
  rewrite trim_proxied by (done || by eapply splitWs_trim_descriptors).
  by destruct descriptors.
Qed.

Lemma rewriteSrcset_spec (value : jsstring) :
  rewriteSrcset env baseUrl value = SrcsetSpec.srcset env baseUrl value.
Proof.
  unfold rewriteSrcset, SrcsetSpec.srcset. f_equal.
  apply list_fmap_ext. intros _ source _. apply rewriteSrcsetEntry_spec.
Qed.

Lemma rewriteUrlAttribute_other (tagName : jsstring) (attribs : gmap jsstring jsstring)
    (name : jsstring) :
  name <> urlAttribute tagName -> name <> lit "method" ->
  rewriteUrlAttribute env baseUrl tagName attribs !! name = attribs !! name.
Proof.
  intros H1 H2. unfold rewriteUrlAttribute.
  destruct (attr _ _) as [[|? ?]| |]; try done.
  destruct (negb _); [|done]. destruct (proxiedUrl _ _ _); [|done]. simpl.
  case_bool_decide; by rewrite ?lookup_insert_ne.
Qed.

End SrcsetPass.

(** C6: on an img or source element with a non-empty srcset attribute the
    transformer sets srcset to the entries obtained by splitting on commas,
    each rewritten on its own, joined with a comma and a space; an entry is
    split on white space into a path and descriptors, the proxied URL takes
    the place of the path and the descriptors stay; an entry whose path
    begins with data: stays as it is. *)
Theorem srcset_is_rewritten_per_entry
    (env : Platform) (baseUrl : URL) (tagName : jsstring)
    (attribs : gmap jsstring jsstring) (children : list node) (srcsetAttr : jsstring) :
  (forall path u, URL_new_base env path baseUrl = Some u -> code_units (href u)) ->
  tagName = lit "img" \/ tagName = lit "source" ->
  attribs !! lit "srcset" = Some srcsetAttr -> srcsetAttr <> [] ->
  nodeAttribs (rewriteNode env baseUrl (Element tagName attribs children)) !! lit "srcset"
    = Some (SrcsetSpec.srcset env baseUrl srcsetAttr)
  /\ (forall source path descriptors,
        splitWs (trim source) = path :: descriptors ->
        startsWith path (lit "data:") = true ->
        SrcsetSpec.entry env baseUrl source = source)
  /\ (forall source path descriptors proxied,
        splitWs (trim source) = path :: descriptors ->
        startsWith path (lit "data:") = false ->
        proxiedUrl env path baseUrl = Some proxied ->
        SrcsetSpec.entry env baseUrl source = join (lit " ") (proxied :: descriptors)).
Proof.
  intros Hcu Htag Hsrcset Hne. split; [|split].
  - rewrite rewriteNode_selected by (by apply selected_img_source).
    unfold rewriteElement.
    rewrite rewriteStyleAttribute_other by (intros H; vm_compute in H; discriminate H).
    unfold rewriteSrcsetAttribute.
    assert (bool_decide (tagName = lit "img") || bool_decide (tagName = lit "source") = true)
      as -> by (destruct Htag as [-> | ->]; reflexivity).
    assert (rewriteUrlAttribute env baseUrl tagName attribs !! lit "srcset"
            = Some srcsetAttr) as Hkeep.
    { rewrite rewriteUrlAttribute_other; [done| |intros H; vm_compute in H; discriminate H].
      destruct Htag as [-> | ->]; intros H; vm_compute in H; discriminate H. }
    destruct srcsetAttr as [|c v]; [done|].
    rewrite (attr_lookup _ (lit "srcset") c v) by done.
    rewrite lookup_insert_eq. f_equal. by apply rewriteSrcset_spec.
  - intros source path descriptors Hsplit Hdata.
    unfold SrcsetSpec.entry. by rewrite Hsplit, Hdata.
  - intros source path descriptors proxied Hsplit Hdata Hp.
    unfold SrcsetSpec.entry. by rewrite Hsplit, Hdata, Hp.
Qed.

Lemma Sample_href_ascii (input : jsstring) (base u : URL) :
  Sample.URL_new_base input base = Some u -> ascii_only (href u).
Proof.
  assert (Forall (fun p => ascii_only p.2) Sample.relative) as Hrel
    by (repeat (constructor; [apply ascii_only_check; reflexivity|]); constructor).
  assert (Forall (fun p => ascii_only p.2) Sample.absolute) as Habs
    by (repeat (constructor; [apply ascii_only_check; reflexivity|]); constructor).
  unfold Sample.URL_new_base, Sample.URL_new.
  destruct (list_find _ Sample.relative) as [[i [k h]]|] eqn:E.
  - intros [= <-]. apply list_find_Some in E as (Hi & _ & _).
    apply (Forall_lookup_1 _ _ _ _ Hrel Hi).
  - destruct (list_find _ Sample.absolute) as [[i [k h]]|] eqn:E'; [|done].
    intros [= <-]. apply list_find_Some in E' as (Hi & _ & _).
    apply (Forall_lookup_1 _ _ _ _ Habs Hi).
Qed.

Lemma srcset_is_rewritten_per_entry_witness :
  nodeAttribs (rewriteNode Sample.platform Sample.xPage
    (Element (lit "img")
       {[ lit "srcset" := lit "/a.png 1x, b.png  2x,data:x 3x, /a.png" ]} []))
    !! lit "srcset"
  = Some (lit "/proxy?url=http%3A%2F%2Fx.test%2Fa.png 1x, /proxy?url=http%3A%2F%2Fx.test%2Fb.png 2x, data:x 3x, /proxy?url=http%3A%2F%2Fx.test%2Fa.png").
Proof.
  destruct (srcset_is_rewritten_per_entry Sample.platform Sample.xPage (lit "img")
              {[ lit "srcset" := lit "/a.png 1x, b.png  2x,data:x 3x, /a.png" ]} []
              (lit "/a.png 1x, b.png  2x,data:x 3x, /a.png")) as (Hset & _).
  - intros path u Hu. apply ascii_code_units. exact (Sample_href_ascii _ _ _ Hu).
  - left. reflexivity.
  - vm_compute. reflexivity.
  - vm_compute. discriminate.
  - rewrite Hset. vm_compute. reflexivity.
Defined.

(** ** Facts about the [url(...)] passes *)

Section UrlPasses.

Variable env : Platform.

Lemma lazyUntil_suffix (close s path rest : jsstring) :
  UrlPattern.lazyUntil close s = Some (path, rest) -> exists m, s = m ++ rest.
Proof.
  revert path. induction s as [|c s IH]; intros path; cbn [UrlPattern.lazyUntil].
  - destruct (startsWith [] close); [|done]. intros [= <- <-].
    exists []. by rewrite drop_nil.
  - destruct (startsWith (c :: s) close).
    + intros [= <- <-]. exists (take (length close) (c :: s)). by rewrite take_drop.
    + destruct (isLineTerminator c); [done|].
      destruct (UrlPattern.lazyUntil close s) as [[p r]|] eqn:E; [|done].
      intros [= <- <-]. destruct (IH _ eq_refl) as [m ->]. by exists (c :: m).
Qed.

Lemma trimStart_suffix (s : jsstring) : exists m, s = m ++ trimStart s.
Proof.
  induction s as [|c s [m IH]]; [by exists []|]. simpl.
  destruct (isWhiteSpace c); [|by exists []]. exists (c :: m). simpl. by f_equal.
Qed.

(** What is left after a match is a proper suffix: a match is never empty,
    so the search always moves on. *)
Lemma matchAt_suffix (s quote path rest : jsstring) :
  UrlPattern.matchAt s = Some (quote, path, rest) ->
  exists m, s = m ++ rest /\ m <> [].
Proof.
  unfold UrlPattern.matchAt.
  destruct s as [|u [|r [|l s1]]]; try done.
  destruct (_ && _); [|done].
  destruct (trimStart_suffix s1) as [w Hw].
  destruct (trimStart s1) as [|p s2]; [done|].
  destruct (p =? 40); [|done].
  assert (forall X : option (jsstring * jsstring * jsstring),
            X = match UrlPattern.lazyUntil [41] s2 with
                | Some (path, rest) => Some ([], path, rest)
                | None => None
                end ->
            X = Some (quote, path, rest) ->
            exists m, u :: r :: l :: s1 = m ++ rest /\ m <> []) as Hun.
  { intros X -> HX. destruct (UrlPattern.lazyUntil [41] s2) as [[p' r']|] eqn:E; [|done].
    injection HX as <- <- <-. destruct (lazyUntil_suffix _ _ _ _ E) as [m ->].
    exists (u :: r :: l :: w ++ p :: m). split; [|done]. rewrite Hw. simpl.
    by rewrite <- app_assoc. }
  destruct s2 as [|q s3]; [by apply Hun|].
  destruct (_ || _); [|by apply Hun].
  destruct (UrlPattern.lazyUntil [q; 41] s3) as [[p' r']|] eqn:E; [|by apply Hun].
  intros [= <- <- <-]. destruct (lazyUntil_suffix _ _ _ _ E) as [m ->].
  exists (u :: r :: l :: w ++ p :: q :: m). split; [|done]. rewrite Hw. simpl.
  by rewrite <- app_assoc.
Qed.

Lemma matchAt_length (s quote path rest : jsstring) :
  UrlPattern.matchAt s = Some (quote, path, rest) -> (length rest < length s)%nat.
Proof.
  intros (m & -> & Hm)%matchAt_suffix. rewrite length_app.
  destruct m; [done|]. simpl. lia.
Qed.

(** More fuel than the length of the text changes nothing. *)
Lemma replaceLoop_fuel (replacer : jsstring -> jsstring -> jsstring -> jsstring) :
  forall fuel (s : jsstring), (length s <= fuel)%nat ->
    UrlPattern.replaceLoop fuel replacer s = UrlPattern.replace replacer s.
Proof.
  unfold UrlPattern.replace.
  induction fuel as [fuel IH] using lt_wf_ind. intros s Hlen.
  destruct s as [|c s]; [by destruct fuel|].
  destruct fuel as [|fuel]; [simpl in Hlen; lia|].
  simpl length. cbn [UrlPattern.replaceLoop].
  destruct (UrlPattern.matchAt (c :: s)) as [[[quote path] rest]|] eqn:E.
  - apply matchAt_length in E. simpl in E, Hlen.
    rewrite (IH fuel) by lia. rewrite (IH (length s)) by lia. done.
  - simpl in Hlen. by rewrite (IH fuel) by lia.
Qed.

(** With a replacer that gives every match back the text is unchanged:
    the pieces between the matches and the matches themselves are put
    together in order. *)
Lemma replace_identity (s : jsstring) :
  UrlPattern.replace (fun matched _ _ => matched) s = s.
Proof.
  unfold UrlPattern.replace.
  remember (length s) as fuel eqn:Hf. assert (length s <= fuel)%nat as Hlen by lia.
  clear Hf. revert s Hlen.
  induction fuel as [|fuel IH]; intros s Hlen; [done|].
  destruct s as [|c s]; [done|]. cbn [UrlPattern.replaceLoop].
  destruct (UrlPattern.matchAt (c :: s)) as [[[quote path] rest]|] eqn:E.
  - destruct (matchAt_suffix _ _ _ _ E) as (m & Hm & Hne).
    assert (length (c :: s) = length m + length rest)%nat as Hl
      by (by rewrite Hm, length_app).
    rewrite IH by (destruct m; [done|]; simpl in *; lia).
    rewrite Hm at 2 3. rewrite Hl.
    replace (length m + length rest - length rest)%nat with (length m) by lia.
    by rewrite take_app_length.
  - simpl in Hlen. by rewrite IH by lia.
Qed.

(** An empty reference is not a case of the replacer's skip: it is
    resolved (to the base itself) and proxied. *)
Lemma urlReplacer_empty (B u : URL) (q matched quote : jsstring) :
  URL_new_base env [] B = Some u -> encodeURIComponent (href u) = Some q ->
  urlReplacer env B matched quote []
  = lit "url(" ++ quote ++ (lit "/proxy?url=" ++ q) ++ quote ++ lit ")".
Proof. intros Hu Hq. unfold urlReplacer, proxiedUrl. by rewrite Hu, Hq. Qed.

(** The regular expression matches an empty [url()]. *)
Lemma matchAt_empty_url (rest : jsstring) :
  UrlPattern.matchAt (lit "url()" ++ rest) = Some ([], [], rest).
Proof. reflexivity. Qed.

End UrlPasses.

(** C3 (the code differs): an empty reference is kept by the attribute pass,
    and a data: reference by every pass, but the replacer of url(...)
    references does not test for the empty string: an empty [url()] in a
    stylesheet or in an inline style is replaced by the proxied URL of the
    base itself. *)
Theorem empty_css_reference_is_proxied :
  rewriteCss Sample.platform Sample.xCss (lit "a{background:url()}")
  = lit "a{background:url(/proxy?url=http%3A%2F%2Fx.test%2Fcss%2Fa.css)}"
  /\ nodeAttribs (rewriteNode Sample.platform Sample.xPage
        (Element (lit "div") {[ lit "style" := lit "background:url('')" ]} []))
        !! lit "style"
     = Some (lit "background:url('/proxy?url=http%3A%2F%2Fx.test%2Fpage')")
  /\ (forall (env : Platform) (B : URL),
        nodeAttribs (rewriteNode env B (Element (lit "a") {[ lit "href" := lit "" ]} []))
          !! lit "href" = Some (lit "")
        /\ nodeAttribs (rewriteNode env B
              (Element (lit "img") {[ lit "src" := lit "data:image/png;base64,AAA" ]} []))
              !! lit "src" = Some (lit "data:image/png;base64,AAA")
        /\ rewriteCss env B (lit "a{background:url(data:image/png;base64,AAA)}")
           = lit "a{background:url(data:image/png;base64,AAA)}").
Proof.
  split; [vm_compute; reflexivity|]. split; [vm_compute; reflexivity|].
  intros env B. repeat split; vm_compute; reflexivity.
Qed.

(** C4 (the code differs): the replacer of url(...) references tests
    whether the path starts with the four letters http, so a relative
    path such as httpdocs/a.png is left as it is, in a stylesheet and in an
    inline style, although it resolves and has a proxied form. *)
Theorem relative_http_prefix_is_skipped :
  (forall (env : Platform) (B : URL),
      rewriteCss env B (lit "a{background:url(httpdocs/a.png)}")
      = lit "a{background:url(httpdocs/a.png)}"
      /\ nodeAttribs (rewriteNode env B
            (Element (lit "div") {[ lit "style" := lit "background:url(httpdocs/a.png)" ]} []))
            !! lit "style"
          = Some (lit "background:url(httpdocs/a.png)"))
  /\ proxiedUrl Sample.platform (lit "httpdocs/a.png") Sample.xCss
     = Some (lit "/proxy?url=http%3A%2F%2Fx.test%2Fcss%2Fhttpdocs%2Fa.png").
Proof.
  split; [|vm_compute; reflexivity].
  intros env B. split; vm_compute; reflexivity.
Qed.

(** ** Facts about the method of forms *)

Section FormMethod.

Variable env : Platform.

(** server.js: the method is kept as written, GET when absent or empty. *)
Lemma form_method_kept (B : URL) (attribs : gmap jsstring jsstring) (v p : jsstring) :
  attribs !! lit "action" = Some v -> v <> [] -> startsWith v (lit "data:") = false ->
  proxiedUrl env v B = Some p ->
  rewriteElement env B (lit "form") attribs !! lit "method"
  = Some (match attribs !! lit "method" with
          | Some (c :: m) => c :: m
          | _ => lit "GET"
          end).
Proof.
  intros Hv Hne Hdata Hp.
  rewrite rewriteElement_lookup by (intros H; vm_compute in H; discriminate H).
  unfold rewriteUrlAttribute.
  change (urlAttribute (lit "form")) with (lit "action").
  destruct v as [|c v]; [done|].
  rewrite (attr_lookup _ (lit "action") c v) by done.
  rewrite Hdata, Hp. simpl negb. cbv iota.
  rewrite bool_decide_eq_true_2 by done. rewrite lookup_insert_eq.
  unfold methodOrGet, attr. change (lit "method") with (109 :: lit "ethod") at 1.
  cbv iota. change (109 :: lit "ethod") with (lit "method").
  rewrite lookup_insert_ne by (intros H; vm_compute in H; discriminate H).
  by destruct (attribs !! lit "method") as [[|? ?]|].
Qed.

(** The earlier revision: the method is upper-cased. *)
Lemma form_method_uppercased (B : URL) (attribs : gmap jsstring jsstring) (v p : jsstring) :
  attribs !! lit "action" = Some v -> v <> [] -> startsWith v (lit "data:") = false ->
  proxiedUrl env v B = Some p ->
  Revision.rewriteUrlAttribute env B (lit "form") attribs !! lit "method"
  = Some (match attribs !! lit "method" with
          | Some (c :: m) => toUpperCase env (c :: m)
          | _ => lit "GET"
          end).
Proof.
  intros Hv Hne Hdata Hp. unfold Revision.rewriteUrlAttribute.
  change (urlAttribute (lit "form")) with (lit "action").
  destruct v as [|c v]; [done|].
  rewrite (attr_lookup _ (lit "action") c v) by done.
  rewrite Hdata, Hp. simpl negb. cbv iota.
  rewrite bool_decide_eq_true_2 by done. rewrite lookup_insert_eq.
  unfold Revision.methodUpperOrGet, attr. change (lit "method") with (109 :: lit "ethod") at 1.
  cbv iota. change (109 :: lit "ethod") with (lit "method").
  rewrite lookup_insert_ne by (intros H; vm_compute in H; discriminate H).
  by destruct (attribs !! lit "method") as [[|? ?]|].
Qed.

End FormMethod.

(** C5 (the code differs): on a form whose action is rewritten, server.js
    sets the method to the original value as written, so post stays post;
    the earlier revision of the same function upper-cases it.  Both set GET
    when the form has no method. *)
Theorem form_method_is_not_uppercased :
  nodeAttribs (rewriteNode Sample.platform Sample.xPage
    (Element (lit "form") {[ lit "action" := lit "/submit"; lit "method" := lit "post" ]} []))
    !! lit "method"
  = Some (lit "post")
  /\ Revision.rewriteUrlAttribute Sample.platform Sample.xPage (lit "form")
       {[ lit "action" := lit "/submit"; lit "method" := lit "post" ]} !! lit "method"
     = Some (lit "POST")
  /\ nodeAttribs (rewriteNode Sample.platform Sample.xPage
        (Element (lit "form") {[ lit "action" := lit "/submit" ]} []))
        !! lit "method"
     = Some (lit "GET").
Proof. repeat split; vm_compute; reflexivity. Qed.

(** ** The status of the response *)

Section Status.

Variable env : Platform.

Lemma handler_missing_status (req : Request) (res : ServerResponse) :
  query_url req = None \/ query_url req = Some [] ->
  statusCode (handler env req res).1 = 400.
Proof. unfold handler. by intros [-> | ->]. Qed.

Lemma handler_unparseable_status (req : Request) (res : ServerResponse)
    (targetUrl : jsstring) :
  query_url req = Some targetUrl -> URL_new env targetUrl = None ->
  statusCode (handler env req res).1 = 400.
Proof.
  unfold handler. intros -> Hu. destruct targetUrl; [done|]. by rewrite Hu.
Qed.

Lemma handler_scheme_status (req : Request) (res : ServerResponse)
    (targetUrl : jsstring) (urlObj : URL) :
  query_url req = Some targetUrl -> targetUrl <> [] ->
  URL_new env targetUrl = Some urlObj ->
  protocol urlObj <> lit "http:" -> protocol urlObj <> lit "https:" ->
  statusCode (handler env req res).1 = 403.
Proof.
  unfold handler. intros -> Hne Hu H1 H2. destruct targetUrl; [done|]. rewrite Hu.
  by rewrite !bool_decide_eq_false_2 by done.
Qed.

(** X16: a rejected [fetch]: 504 for a timeout or an abort, 500 for
    anything else. *)
Lemma handler_rejected_status (req : Request) (res : ServerResponse)
    (targetUrl : jsstring) (urlObj : URL) (name message : jsstring) :
  query_url req = Some targetUrl -> targetUrl <> [] ->
  URL_new env targetUrl = Some urlObj ->
  protocol urlObj = lit "http:" \/ protocol urlObj = lit "https:" ->
  fetch env targetUrl (fetchOptions req) = Rejected name message ->
  statusCode (handler env req res).1 = if isTimeout name then 504 else 500.
Proof.
  intros Hq Hne Hu Hp Hf.
  rewrite (handler_valid env req res targetUrl urlObj Hq Hne Hu Hp). rewrite Hf.
  unfold catchBlock. by destruct (isTimeout name).
Qed.

(** X17: a fulfilled [fetch] whose body can be read: the upstream status,
    in each of the three branches. *)
Lemma handler_fulfilled_status (req : Request) (res : ServerResponse)
    (targetUrl : jsstring) (urlObj : URL) (response : Response)
    (bytes : list Z) (content : jsstring) :
  query_url req = Some targetUrl -> targetUrl <> [] ->
  URL_new env targetUrl = Some urlObj ->
  protocol urlObj = lit "http:" \/ protocol urlObj = lit "https:" ->
  fetch env targetUrl (fetchOptions req) = Fulfilled response ->
  arrayBuffer response = Fulfilled bytes -> text response = Fulfilled content ->
  statusCode (handler env req res).1 = status response.
Proof.
  intros Hq Hne Hu Hp Hf Hbytes Htext.
  rewrite (handler_valid env req res targetUrl urlObj Hq Hne Hu Hp). rewrite Hf.
  assert (forall hs r, statusCode (relayHeaders env hs r) = statusCode r) as Hrel.
  { unfold relayHeaders. induction hs as [|[n v] hs IH]; intros r; [done|].
    simpl. rewrite IH. by destruct (negb _). }
  unfold relay, rewriteHtmlContent. rewrite Hbytes, Htext, Hu.
  repeat case_match; simplify_eq; simpl; by rewrite Hrel.
Qed.

End Status.

(** C2 (the code differs): a failure of the upstream fetch that is not a
    timeout, here a refused connection reported as a TypeError, is answered
    with status 500, not 502; the catch block of the earlier revision
    answers 502. *)
Theorem connection_failure_is_answered_500 :
  statusCode (handler Sample.platform
                (mkRequest (Some (lit "http://down.test/")) (lit "GET") None None)
                (mkServerResponse 200 ∅ None)).1 = 500
  /\ statusCode (Revision.catchBlock (lit "fetch failed") (mkServerResponse 200 ∅ None)) = 502.
Proof. split; vm_compute; reflexivity. Qed.

(** ** The scenarios of the specification, run on the sample platform *)

Example scenario_img_src :
  rewriteDocument Sample.platform Sample.xPage
    [Element (lit "img") {[ lit "src" := lit "/a.png" ]} []]
  = [Element (lit "img") {[ lit "src" := lit "/proxy?url=http%3A%2F%2Fx.test%2Fa.png" ]} []].
Proof. vm_compute. reflexivity. Qed.

Example scenario_css_background :
  rewriteCss Sample.platform Sample.xCss (lit "background: url('../img/bg.png')")
  = lit "background: url('/proxy?url=http%3A%2F%2Fx.test%2Fimg%2Fbg.png')".
Proof. vm_compute. reflexivity. Qed.

Example scenario_missing_url :
  (handler Sample.platform (mkRequest None (lit "GET") None None)
     (mkServerResponse 200 ∅ None)).1
  = mkServerResponse 400 (sendHeaders ∅) (Some (SentError MissingUrlParameter)).
Proof. vm_compute. reflexivity. Qed.

Example scenario_timeout :
  statusCode (handler Sample.platform
                (mkRequest (Some (lit "http://slow.test/")) (lit "GET") None None)
                (mkServerResponse 200 ∅ None)).1 = 504.
Proof. vm_compute. reflexivity. Qed.

Example scenario_base_removed :
  rewriteDocument Sample.platform Sample.xPage
    [Element (lit "html") ∅
       [Element (lit "head") ∅
          [Element (lit "base") {[ lit "href" := lit "http://x.test/" ]} [];
           Element (lit "title") ∅ [Text (lit "t")]];
        Element (lit "body") ∅ [Text (lit "hello")]]]
  = [Element (lit "html") ∅
       [Element (lit "head") ∅ [Element (lit "title") ∅ [Text (lit "t")]];
        Element (lit "body") ∅ [Text (lit "hello")]]].
Proof. vm_compute. reflexivity. Qed.

(** ** The built-ins on a few inputs *)

Example encode_url :
  encodeURIComponent (lit "http://x.test/a.png?q=1&r=a b#f")
  = Some (lit "http%3A%2F%2Fx.test%2Fa.png%3Fq%3D1%26r%3Da%20b%23f").
Proof. reflexivity. Qed.

Example encode_non_ascii :
  encodeURIComponent [233; 8364; 55357; 56832] = Some (lit "%C3%A9%E2%82%AC%F0%9F%98%80").
Proof. reflexivity. Qed.

Example decode_non_ascii :
  decodeURIComponent (lit "%C3%A9%E2%82%AC%F0%9F%98%80") = Some [233; 8364; 55357; 56832].
Proof. reflexivity. Qed.

Example encode_lone_surrogate : encodeURIComponent [97; 55357; 98] = None.
Proof. reflexivity. Qed.

Example decode_overlong : decodeURIComponent (lit "%C0%80") = None.
Proof. reflexivity. Qed.

Example decode_truncated : decodeURIComponent (lit "abc%2") = None.
Proof. reflexivity. Qed.

Example decode_lower_case_hex : decodeURIComponent (lit "a%2fb") = Some (lit "a/b").
Proof. reflexivity. Qed.

Example split_trailing_comma :
  splitOn 44 (lit "a 1x, b 2x,") = [lit "a 1x"; lit " b 2x"; lit ""].
Proof. reflexivity. Qed.

Example split_white_space :
  splitWs (lit "a.png  100w 2x") = [lit "a.png"; lit "100w"; lit "2x"]
  /\ splitWs (lit " a") = [lit ""; lit "a"] /\ splitWs (lit "") = [lit ""].
Proof. repeat split; reflexivity. Qed.

Example match_unclosed_quote :
  UrlPattern.matchAt (lit "URL ('x) y") = Some (lit "", lit "'x", lit " y").
Proof. reflexivity. Qed.

Example match_quoted :
  UrlPattern.matchAt (lit "url(" ++ [34] ++ lit "a)b" ++ [34] ++ lit ") c")
  = Some ([34], lit "a)b", lit " c").
Proof. reflexivity. Qed.

(** ** Further facts: the proxied URL *)

Section ProxiedUrl.

Variable env : Platform.

Lemma hexDigit_unescaped (d : Z) : 0 <= d < 16 -> uriUnescaped (hexDigit d) = true.
Proof.
  intros Hd. unfold uriUnescaped. apply orb_true_intro. left.
  unfold isAlnum, between, hexDigit. destruct (Z.ltb_spec d 10).
  - apply orb_true_intro. left. apply orb_true_intro. left.
    apply andb_true_intro. split; apply Z.leb_le; lia.
  - apply orb_true_intro. left. apply orb_true_intro. right.
    apply andb_true_intro. split; apply Z.leb_le; lia.
Qed.

Lemma percentOctets_safe (bs : list Z) :
  Forall (fun b => 0 <= b < 256) bs -> Forall uriSafe (percentOctets bs).
Proof.
  induction 1 as [|b bs Hb _ IH]; [constructor|].
  rewrite percentOctets_cons. apply Forall_app. split; [|exact IH].
  assert (0 <= b / 16 < 16)
    by (split; [apply Z.div_pos; lia | apply Z.div_lt_upper_bound; lia]).
  pose proof (Z.mod_pos_bound b 16).
  unfold percentOctet.
  constructor; [by right|].
  constructor; [left; apply hexDigit_unescaped; lia|].
  constructor; [left; apply hexDigit_unescaped; lia|]. constructor.
Qed.

Lemma Encode_safe :
  forall n (s e : jsstring), (length s <= n)%nat -> code_units s ->
    Encode uriUnescaped s = Some e -> Forall uriSafe e.
Proof.
  induction n as [|n IH]; intros s e Hlen Hcu Henc.
  { destruct s; [|simpl in Hlen; lia]. injection Henc as <-. constructor. }
  destruct s as [|c rest]; [injection Henc as <-; constructor|].
  inversion Hcu as [|? ? Hc Hrest]; subst. simpl in Hlen. cbn [Encode] in Henc.
  destruct (uriUnescaped c) eqn:Hun.
  - destruct (Encode uriUnescaped rest) as [e'|] eqn:He'; [|discriminate].
    injection Henc as <-. constructor; [by left|].
    apply (IH rest); [lia|done|done].
  - destruct (isTrailingSurrogate c) eqn:Htr; [discriminate|].
    destruct (isLeadingSurrogate c) eqn:Hld.
    + destruct rest as [|c2 rest']; [discriminate|].
      destruct (isTrailingSurrogate c2) eqn:Htr2; [|discriminate].
      destruct (Encode uriUnescaped rest') as [e'|] eqn:He'; [|discriminate].
      injection Henc as <-. inversion Hrest; subst. simpl in Hlen.
      destruct (UTF16EncodeCodePoint_pair c c2 Hld Htr2) as (Hsc & _ & _).
      apply Forall_app. split.
      * apply percentOctets_safe. by apply utf8Encode_octets.
      * apply (IH rest'); [lia|done|done].
    + destruct (Encode uriUnescaped rest) as [e'|] eqn:He'; [|discriminate].
      injection Henc as <-.
      destruct (UTF16EncodeCodePoint_unit c Hc Hld Htr) as (Hsc & _).
      apply Forall_app. split.
      * apply percentOctets_safe. by apply utf8Encode_octets.
      * apply (IH rest); [lia|done|done].
Qed.

(** No separator of a query string is [uriSafe]. *)
Lemma uriSafe_no_separator (c : Z) :
  uriSafe c ->
  c <> 38 /\ c <> 61 /\ c <> 35 /\ c <> 43 /\ c <> 63 /\ c <> 47
  /\ isWhiteSpace c = false.
Proof.
  intros [Hc | ->]; [|repeat split; done].
  apply uriUnescaped_printable in Hc as Hp.
  split; [|split; [|split; [|split; [|split; [|split]]]]];
    try (intros ->; vm_compute in Hc; discriminate Hc).
  by apply printable_not_ws.
Qed.

End ProxiedUrl.

(** X1: whenever the body of the try blocks yields a proxied URL, it is
    [/proxy?url=] followed by a string of unreserved characters and percent
    escapes only, so it holds no ampersand, equals sign, hash, plus, question
    mark, slash or white space and stays one query parameter; and
    [decodeURIComponent] of that string is the href of the resolved URL,
    ASCII or not. *)
Theorem proxied_url_is_one_parameter
    (env : Platform) (B : URL) (path p : jsstring) (u : URL) :
  URL_new_base env path B = Some u -> code_units (href u) ->
  proxiedUrl env path B = Some p ->
  exists q,
    p = lit "/proxy?url=" ++ q
    /\ encodeURIComponent (href u) = Some q
    /\ decodeURIComponent q = Some (href u)
    /\ Forall (fun c => c <> 38 /\ c <> 61 /\ c <> 35 /\ c <> 43 /\ c <> 63 /\ c <> 47
                        /\ isWhiteSpace c = false) q.
Proof.
  intros Hu Hcu Hp. unfold proxiedUrl in Hp. rewrite Hu in Hp.
  destruct (encodeURIComponent (href u)) as [q|] eqn:Hq; [|done].
  injection Hp as <-. exists q. split; [done|]. split; [done|]. split.
  - by apply decode_encodeURIComponent.
  - eapply Forall_impl; [apply (Encode_safe (length (href u)) (href u)); done|].
    intros c Hc. by apply uriSafe_no_separator.
Qed.

Lemma proxied_url_is_one_parameter_witness :
  exists q,
    lit "/proxy?url=http%3A%2F%2Fx.test%2Fa.png" = lit "/proxy?url=" ++ q
    /\ encodeURIComponent (lit "http://x.test/a.png") = Some q
    /\ decodeURIComponent q = Some (lit "http://x.test/a.png")
    /\ Forall (fun c => c <> 38 /\ c <> 61 /\ c <> 35 /\ c <> 43 /\ c <> 63 /\ c <> 47
                        /\ isWhiteSpace c = false) q.
Proof.
  apply (proxied_url_is_one_parameter Sample.platform Sample.xPage (lit "/a.png")
           (lit "/proxy?url=http%3A%2F%2Fx.test%2Fa.png")
           (Sample.url (lit "http://x.test/a.png"))).
  - vm_compute. reflexivity.
  - apply ascii_code_units, ascii_only_check. reflexivity.
  - vm_compute. reflexivity.
Defined.

(** ** Further facts: the [url(...)] passes *)

Section UrlPassesMore.

Variable replacer : jsstring -> jsstring -> jsstring -> jsstring.

(** One turn of the search on a match. *)
Lemma replace_match (s quote path rest : jsstring) :
  UrlPattern.matchAt s = Some (quote, path, rest) ->
  UrlPattern.replace replacer s
  = replacer (take (length s - length rest)%nat s) quote path
      ++ UrlPattern.replace replacer rest.
Proof.
  intros Hm. pose proof (matchAt_length _ _ _ _ Hm) as Hlen.
  destruct s as [|c s]; [done|]. unfold UrlPattern.replace at 1.
  simpl length. cbn [UrlPattern.replaceLoop]. rewrite Hm.
  rewrite replaceLoop_fuel by (simpl in Hlen; lia). done.
Qed.

(** One turn of the search where nothing matches. *)
Lemma replace_no_match (c : Z) (s : jsstring) :
  UrlPattern.matchAt (c :: s) = None ->
  UrlPattern.replace replacer (c :: s) = c :: UrlPattern.replace replacer s.
Proof.
  intros Hm. unfold UrlPattern.replace at 1.
  simpl length. cbn [UrlPattern.replaceLoop]. by rewrite Hm.
Qed.

Lemma matchAt_not_u (c : Z) (s : jsstring) :
  c <> 117 -> c <> 85 -> UrlPattern.matchAt (c :: s) = None.
Proof.
  intros H1 H2. unfold UrlPattern.matchAt.
  destruct s as [|r [|l s1]]; try done.
  assert (UrlPattern.letter 117 c = false) as ->; [|done].
  unfold UrlPattern.letter. apply orb_false_intro; apply Z.eqb_neq; lia.
Qed.

(** Text without the letter u is copied. *)
Lemma replace_prefix (pre s : jsstring) :
  Forall (fun c => c <> 117 /\ c <> 85) pre ->
  UrlPattern.replace replacer (pre ++ s) = pre ++ UrlPattern.replace replacer s.
Proof.
  induction 1 as [|c pre [H1 H2] _ IH]; [done|].
  simpl. rewrite replace_no_match by (by apply matchAt_not_u). by rewrite IH.
Qed.

Lemma lazyUntil_found (close path rest : jsstring) (q : Z) :
  Forall (fun c => c <> q /\ isLineTerminator c = false) path ->
  startsWith (q :: close ++ rest) (q :: close) = true ->
  UrlPattern.lazyUntil (q :: close) (path ++ q :: close ++ rest) = Some (path, rest).
Proof.
  intros Hpath Hclose. induction Hpath as [|c path [Hc Hlt] _ IH].
  - simpl app. destruct (q :: close ++ rest) as [|a t] eqn:E; [done|].
    cbn [UrlPattern.lazyUntil]. rewrite Hclose. f_equal. f_equal.
    injection E as <- <-. simpl. by rewrite drop_app_length.
  - simpl app. cbn [UrlPattern.lazyUntil].
    assert (startsWith (c :: path ++ q :: close ++ rest) (q :: close) = false) as ->.
    { simpl. apply andb_false_intro1. apply Z.eqb_neq. lia. }
    rewrite Hlt. by rewrite IH.
Qed.

(** The pattern reads a plain reference back as it is written. *)
Lemma matchAt_plain (quote path rest : jsstring) :
  UrlPattern.plainReference quote path ->
  UrlPattern.matchAt (lit "url(" ++ quote ++ path ++ quote ++ lit ")" ++ rest)
  = Some (quote, path, rest).
Proof.
  intros Hplain. destruct quote as [|q [|? ?]]; [| |done].
  - destruct Hplain as [Hpath Hhead].
    change (lit "url(" ++ [] ++ path ++ [] ++ lit ")" ++ rest)
      with (117 :: 114 :: 108 :: 40 :: path ++ 41 :: [] ++ rest).
    pose proof (lazyUntil_found [] path rest 41 Hpath) as Hl.
    unfold UrlPattern.matchAt.
    change (UrlPattern.letter 117 117 && UrlPattern.letter 114 114
            && UrlPattern.letter 108 108) with true. cbv iota.
    change (trimStart (40 :: path ++ 41 :: [] ++ rest))
      with (40 :: path ++ 41 :: [] ++ rest). cbv iota.
    change (40 =? 40) with true. cbv iota.
    rewrite Hl by reflexivity.
    destruct path as [|c path]; [done|]. simpl app.
    destruct Hhead as [H39 H34].
    assert ((c =? 39) || (c =? 34) = false) as ->; [|done].
    apply orb_false_intro; apply Z.eqb_neq; lia.
  - destruct Hplain as [Hq Hpath].
    change (lit "url(" ++ [q] ++ path ++ [q] ++ lit ")" ++ rest)
      with (117 :: 114 :: 108 :: 40 :: q :: path ++ q :: [41] ++ rest).
    pose proof (lazyUntil_found [41] path rest q Hpath) as Hl.
    unfold UrlPattern.matchAt.
    change (UrlPattern.letter 117 117 && UrlPattern.letter 114 114
            && UrlPattern.letter 108 108) with true. cbv iota.
    change (trimStart (40 :: q :: path ++ q :: [41] ++ rest))
      with (40 :: q :: path ++ q :: [41] ++ rest). cbv iota.
    change (40 =? 40) with true. cbv iota.
    assert ((q =? 39) || (q =? 34) = true) as ->
      by (destruct Hq as [-> | ->]; reflexivity).
    rewrite Hl by (simpl; by rewrite Z.eqb_refl). done.
Qed.

(** The search copies the text before a plain reference, hands the
    reference to the replacer and goes on after it. *)
Lemma replace_plain (pre quote path rest : jsstring) :
  Forall (fun c => c <> 117 /\ c <> 85) pre ->
  UrlPattern.plainReference quote path ->
  UrlPattern.replace replacer
    (pre ++ lit "url(" ++ quote ++ path ++ quote ++ lit ")" ++ rest)
  = pre ++ replacer (lit "url(" ++ quote ++ path ++ quote ++ lit ")") quote path
        ++ UrlPattern.replace replacer rest.
Proof.
  intros Hpre Hplain. rewrite replace_prefix by done. f_equal.
  rewrite (replace_match _ quote path rest) by (by apply matchAt_plain).
  f_equal. f_equal.
  replace (lit "url(" ++ quote ++ path ++ quote ++ lit ")" ++ rest)
    with ((lit "url(" ++ quote ++ path ++ quote ++ lit ")") ++ rest)
    by (by rewrite <- !app_assoc).
  rewrite length_app.
  replace (length (lit "url(" ++ quote ++ path ++ quote ++ lit ")") + length rest
           - length rest)%nat
    with (length (lit "url(" ++ quote ++ path ++ quote ++ lit ")")) by lia.
  by rewrite take_app_length.
Qed.

(** A replacer that gives every match back leaves the text as it is. *)
Lemma replace_returning_match (s : jsstring) :
  (forall matched quote path, replacer matched quote path = matched) ->
  UrlPattern.replace replacer s = s.
Proof.
  intros Hid.
  remember (length s) as n eqn:Hn. assert (length s <= n)%nat as Hlen by lia.
  clear Hn. revert s Hlen.
  induction n as [|n IH]; intros s Hlen; [destruct s; [done|simpl in Hlen; lia]|].
  destruct s as [|c s]; [done|].
  destruct (UrlPattern.matchAt (c :: s)) as [[[quote path] rest]|] eqn:E.
  - rewrite (replace_match _ quote path rest E), Hid.
    destruct (matchAt_suffix _ _ _ _ E) as (m & Hm & Hne).
    assert (length (c :: s) = length m + length rest)%nat as Hl
      by (by rewrite Hm, length_app).
    rewrite IH by (destruct m; [done|]; simpl in *; lia).
    rewrite Hm at 2 3. rewrite Hl.
    replace (length m + length rest - length rest)%nat with (length m) by lia.
    by rewrite take_app_length.
  - rewrite replace_no_match by done. simpl in Hlen. by rewrite IH by lia.
Qed.

End UrlPassesMore.

(** X2: in a stylesheet, the text up to a plainly written reference
    url(path), with or without quotes, is copied as long as it holds no
    letter u; the reference goes to the replacer with its quote and its
    path, and the pass goes on with the text after it.  When the path
    starts with none of http, two slashes and data: and can be proxied, the
    reference becomes url(proxied) inside the same quotes. *)
Theorem css_reference_is_rewritten_in_place
    (env : Platform) (B : URL) (pre quote path rest proxied : jsstring) :
  Forall (fun c => c <> 117 /\ c <> 85) pre ->
  UrlPattern.plainReference quote path ->
  startsWith path (lit "http") = false ->
  startsWith path (lit "//") = false ->
  startsWith path (lit "data:") = false ->
  proxiedUrl env path B = Some proxied ->
  rewriteCss env B (pre ++ lit "url(" ++ quote ++ path ++ quote ++ lit ")" ++ rest)
  = pre ++ (lit "url(" ++ quote ++ proxied ++ quote ++ lit ")") ++ rewriteCss env B rest.
Proof.
  intros Hpre Hplain H1 H2 H3 Hp. unfold rewriteCss.
  rewrite replace_plain by done. f_equal. f_equal.
  unfold urlReplacer. by rewrite H1, H2, H3, Hp.
Qed.

Lemma css_reference_is_rewritten_in_place_witness :
  rewriteCss Sample.platform Sample.xCss
    (lit ".a{backgro" ++ lit "url(" ++ [39] ++ lit "../img/bg.png" ++ [39] ++ lit ")"
       ++ lit "} .b{color:red}")
  = lit ".a{backgro"
      ++ (lit "url(" ++ [39] ++ lit "/proxy?url=http%3A%2F%2Fx.test%2Fimg%2Fbg.png" ++ [39]
            ++ lit ")")
      ++ rewriteCss Sample.platform Sample.xCss (lit "} .b{color:red}").
Proof.
  apply (css_reference_is_rewritten_in_place Sample.platform Sample.xCss).
  - apply Forall_forall. intros c Hc. vm_compute in Hc.
    repeat (apply elem_of_cons in Hc as [-> | Hc]; [split; discriminate|]).
    by apply elem_of_nil in Hc.
  - split; [by left|]. apply Forall_forall. intros c Hc. vm_compute in Hc.
    repeat (apply elem_of_cons in Hc as [-> | Hc]; [split; [discriminate|reflexivity]|]).
    by apply elem_of_nil in Hc.
  - reflexivity.
  - reflexivity.
  - reflexivity.
  - vm_compute. reflexivity.
Defined.

Section Matches.

Variable replacer : jsstring -> jsstring -> jsstring -> jsstring.

Lemma matchesLoop_fuel :
  forall fuel (s : jsstring), (length s <= fuel)%nat ->
    UrlPattern.matchesLoop fuel s = UrlPattern.matches s.
Proof.
  unfold UrlPattern.matches.
  induction fuel as [fuel IH] using lt_wf_ind. intros s Hlen.
  destruct s as [|c s]; [by destruct fuel|].
  destruct fuel as [|fuel]; [simpl in Hlen; lia|].
  simpl length. cbn [UrlPattern.matchesLoop].
  destruct (UrlPattern.matchAt (c :: s)) as [[[quote path] rest]|] eqn:E.
  - apply matchAt_length in E. simpl in E, Hlen.
    rewrite (IH fuel) by lia. rewrite (IH (length s)) by lia. done.
  - simpl in Hlen. by rewrite (IH fuel) by lia.
Qed.

Lemma matches_match (s quote path rest : jsstring) :
  UrlPattern.matchAt s = Some (quote, path, rest) ->
  UrlPattern.matches s
  = (take (length s - length rest)%nat s, quote, path) :: UrlPattern.matches rest.
Proof.
  intros Hm. pose proof (matchAt_length _ _ _ _ Hm) as Hlen.
  destruct s as [|c s]; [done|]. unfold UrlPattern.matches at 1.
  simpl length. cbn [UrlPattern.matchesLoop]. rewrite Hm.
  rewrite matchesLoop_fuel by (simpl in Hlen; lia). done.
Qed.

Lemma matches_no_match (c : Z) (s : jsstring) :
  UrlPattern.matchAt (c :: s) = None ->
  UrlPattern.matches (c :: s) = UrlPattern.matches s.
Proof.
  intros Hm. unfold UrlPattern.matches at 1.
  simpl length. cbn [UrlPattern.matchesLoop]. rewrite Hm.
  by rewrite matchesLoop_fuel.
Qed.

(** A replacer that gives back each match of the text leaves the text as
    it is. *)
Lemma replace_matches_returned (s : jsstring) :
  Forall (fun '(matched, quote, path) => replacer matched quote path = matched)
    (UrlPattern.matches s) ->
  UrlPattern.replace replacer s = s.
Proof.
  remember (length s) as n eqn:Hn. assert (length s <= n)%nat as Hlen by lia.
  clear Hn. revert s Hlen.
  induction n as [|n IH]; intros s Hlen Hall; [destruct s; [done|simpl in Hlen; lia]|].
  destruct s as [|c s]; [done|].
  destruct (UrlPattern.matchAt (c :: s)) as [[[quote path] rest]|] eqn:E.
  - rewrite (matches_match _ quote path rest E) in Hall.
    apply Forall_cons in Hall as [Hhere Hrest].
    rewrite (replace_match _ _ quote path rest E), Hhere.
    destruct (matchAt_suffix _ _ _ _ E) as (m & Hm & Hne).
    assert (length (c :: s) = length m + length rest)%nat as Hl
      by (by rewrite Hm, length_app).
    rewrite IH by (done || (destruct m; [done|]; simpl in *; lia)).
    rewrite Hm at 2 3. rewrite Hl.
    replace (length m + length rest - length rest)%nat with (length m) by lia.
    by rewrite take_app_length.
  - rewrite matches_no_match in Hall by done.
    rewrite replace_no_match by done. simpl in Hlen. by rewrite IH by (done || lia).
Qed.

End Matches.

(** X3: when every reference that the pattern finds in a text is one the
    replacer skips (it starts with http, with two slashes or with data:) or
    one that cannot be proxied (resolution or encoding throws), the CSS
    transformer gives the text back unchanged, and the style pass leaves an
    element with that style as it is: a failed rewrite never alters the
    text. *)
Theorem unresolvable_references_are_kept
    (env : Platform) (B : URL) (css : jsstring) :
  Forall (fun '(_, _, path) =>
            startsWith path (lit "http") = true \/ startsWith path (lit "//") = true
            \/ startsWith path (lit "data:") = true \/ proxiedUrl env path B = None)
    (UrlPattern.matches css) ->
  rewriteCss env B css = css
  /\ (forall attribs : gmap jsstring jsstring,
        attribs !! lit "style" = Some css ->
        rewriteStyleAttribute env B attribs = attribs).
Proof.
  intros Hall.
  assert (UrlPattern.replace (urlReplacer env B) css = css) as Hid.
  { apply replace_matches_returned. eapply Forall_impl; [exact Hall|].
    intros [[matched quote] path] Hcase. unfold urlReplacer.
    destruct Hcase as [-> | [-> | [-> | ->]]]; rewrite ?orb_true_r; try done.
    by destruct (_ || _). }
  split; [exact Hid|].
  intros attribs Hs. unfold rewriteStyleAttribute, attr.
  change (lit "style") with (115 :: lit "tyle") at 1. cbv iota.
  change (115 :: lit "tyle") with (lit "style"). rewrite Hs.
  destruct css as [|c v]; [done|]. rewrite Hid. by apply insert_id.
Qed.

Lemma unresolvable_references_are_kept_witness :
  rewriteCss Sample.platform Sample.xCss
    (lit "a{b:url(data:x)} c{d:url('http://y.test/i.png')} e{f:url(ftp://[)}")
  = lit "a{b:url(data:x)} c{d:url('http://y.test/i.png')} e{f:url(ftp://[)}".
Proof.
  destruct (unresolvable_references_are_kept Sample.platform Sample.xCss
              (lit "a{b:url(data:x)} c{d:url('http://y.test/i.png')} e{f:url(ftp://[)}"))
    as [Hcss _]; [|exact Hcss].
  set (found := UrlPattern.matches _). vm_compute in found. subst found.
  repeat (constructor;
          [first [ left; reflexivity | right; left; reflexivity
                 | right; right; left; reflexivity
                 | right; right; right; vm_compute; reflexivity ]|]).
  constructor.
Defined.

(** ** Further facts: the attribute passes on one element *)

Section ElementFrame.

Variable env : Platform.
Variable B : URL.

Ltac lit_neq := let H := fresh in intros H; vm_compute in H; discriminate H.

Lemma insert_present_dom (m : gmap jsstring jsstring) (k v w : jsstring) :
  m !! k = Some v -> dom (<[k := w]> m) = dom m.
Proof.
  intros Hk. rewrite dom_insert_L. apply subseteq_union_1_L.
  apply singleton_subseteq_l, elem_of_dom. by eexists.
Qed.

Lemma attr_string_lookup (m : gmap jsstring jsstring) (name v : jsstring) :
  attr m name = AttrString v -> m !! name = Some v.
Proof.
  unfold attr. destruct name as [|a name]; [done|].
  destruct (m !! (a :: name)) as [w|]; intros H; [by injection H as ->|discriminate H].
Qed.

Lemma rewriteUrlAttribute_frame (tagName : jsstring) (attribs : gmap jsstring jsstring)
    (name : jsstring) :
  name <> urlAttribute tagName ->
  (tagName = lit "form" -> name <> lit "method") ->
  rewriteUrlAttribute env B tagName attribs !! name = attribs !! name.
Proof.
  intros H1 H2. unfold rewriteUrlAttribute.
  destruct (attr _ _) as [[|? ?]| |]; try done.
  destruct (negb _); [|done]. destruct (proxiedUrl _ _ _); [|done]. simpl.
  case_bool_decide as Hform.
  - specialize (H2 Hform). by rewrite !lookup_insert_ne.
  - by rewrite lookup_insert_ne.
Qed.

Lemma rewriteUrlAttribute_dom (tagName : jsstring) (attribs : gmap jsstring jsstring) :
  tagName <> lit "form" ->
  dom (rewriteUrlAttribute env B tagName attribs) = dom attribs.
Proof.
  intros Hform. unfold rewriteUrlAttribute.
  destruct (attr _ _) as [[|c v]| |] eqn:Ha; try done.
  destruct (negb _); [|done]. destruct (proxiedUrl _ _ _); [|done]. simpl.
  rewrite bool_decide_eq_false_2 by done.
  by apply (insert_present_dom _ _ (c :: v)), attr_string_lookup.
Qed.

Lemma rewriteSrcsetAttribute_dom (tagName : jsstring) (attribs : gmap jsstring jsstring) :
  dom (rewriteSrcsetAttribute env B tagName attribs) = dom attribs.
Proof.
  unfold rewriteSrcsetAttribute. destruct (_ || _); [|done].
  destruct (attr _ _) as [[|c v]| |] eqn:Ha; try done.
  by apply (insert_present_dom _ _ (c :: v)), attr_string_lookup.
Qed.

Lemma rewriteStyleAttribute_dom (attribs : gmap jsstring jsstring) :
  dom (rewriteStyleAttribute env B attribs) = dom attribs.
Proof.
  unfold rewriteStyleAttribute.
  destruct (attr _ _) as [[|c v]| |] eqn:Ha; try done.
  by apply (insert_present_dom _ _ (c :: v)), attr_string_lookup.
Qed.

End ElementFrame.

(** X4: the pass over an element changes at most the URL attribute of its
    tag, srcset, style and, on a form, method: every other attribute keeps
    its value; and on an element that is not a form no attribute is added
    or removed. *)
Theorem other_attributes_are_kept
    (env : Platform) (B : URL) (tagName : jsstring)
    (attribs : gmap jsstring jsstring) (children : list node) :
  (forall name,
      name <> urlAttribute tagName -> name <> lit "srcset" -> name <> lit "style" ->
      (tagName = lit "form" -> name <> lit "method") ->
      nodeAttribs (rewriteNode env B (Element tagName attribs children)) !! name
      = attribs !! name)
  /\ (tagName <> lit "form" ->
      dom (nodeAttribs (rewriteNode env B (Element tagName attribs children)))
      = dom attribs).
Proof.
  split.
  - intros name H1 H2 H3 H4. simpl. destruct (selected env tagName attribs); [|done].
    unfold rewriteElement.
    rewrite rewriteStyleAttribute_other, rewriteSrcsetAttribute_other by done.
    by apply rewriteUrlAttribute_frame.
  - intros Hform. simpl. destruct (selected env tagName attribs); [|done].
    unfold rewriteElement.
    rewrite rewriteStyleAttribute_dom, rewriteSrcsetAttribute_dom.
    by apply rewriteUrlAttribute_dom.
Qed.

(** ** Further facts: the tree *)

Section Tree.

Variable env : Platform.
Variable B : URL.

Lemma rewriteNode_names (n : node) : elementNames (rewriteNode env B n) = elementNames n.
Proof.
  induction n as [tagName attribs children IH | data] using node_induction; [|done].
  cbn [rewriteNode elementNames]. f_equal. f_equal.
  rewrite <- list_fmap_compose. apply Forall_fmap_ext.
  eapply Forall_impl; [exact IH|]. by intros n Hn.
Qed.

Lemma rewriteNode_document_names (doc : list node) :
  documentElementNames (rewriteNode env B <$> doc) = documentElementNames doc.
Proof.
  unfold documentElementNames. f_equal.
  rewrite <- list_fmap_compose. apply Forall_fmap_ext, Forall_forall.
  intros n _. apply rewriteNode_names.
Qed.

Lemma removeBase_sublist (doc : list node) :
  Forall (fun n => elementNames (removeBaseIn n) `sublist_of` elementNames n) doc ->
  documentElementNames (removeBase doc) `sublist_of` documentElementNames doc.
Proof.
  unfold documentElementNames.
  induction 1 as [|c doc Hc _ IH]; simpl; [done|].
  destruct (isBase c).
  - by apply sublist_inserts_l.
  - simpl. by apply sublist_app.
Qed.

Lemma removeBaseIn_sublist (n : node) :
  elementNames (removeBaseIn n) `sublist_of` elementNames n.
Proof.
  induction n as [tagName attribs children IH | data] using node_induction; [|done].
  rewrite removeBaseIn_Element. cbn [elementNames]. apply sublist_skip.
  by apply (removeBase_sublist children).
Qed.

Lemma rewriteNode_unselected (n : node) :
  anySelected env n = false -> rewriteNode env B n = n.
Proof.
  induction n as [tagName attribs children IH | data] using node_induction; [|done].
  cbn [anySelected rewriteNode]. intros [Hsel Hch]%orb_false_elim. rewrite Hsel. f_equal.
  induction IH as [|c children Hc _ IHch]; [done|].
  cbn [existsb] in Hch. apply orb_false_elim in Hch as [H1 H2].
  rewrite fmap_cons. by rewrite Hc, IHch.
Qed.

Lemma removeBase_absent (doc : list node) :
  Forall (fun n => lit "base" ∉ elementNames n -> removeBaseIn n = n) doc ->
  lit "base" ∉ documentElementNames doc -> removeBase doc = doc.
Proof.
  unfold documentElementNames.
  induction 1 as [|c doc Hc _ IH]; [done|]. simpl. intros Hno.
  rewrite elem_of_app in Hno.
  assert (isBase c = false) as ->.
  { destruct c as [t a ch|d]; [|done]. simpl. apply bool_decide_eq_false_2.
    intros ->. apply Hno. left. simpl. left. }
  rewrite Hc, IH; [done|tauto|tauto].
Qed.

Lemma removeBaseIn_absent (n : node) :
  lit "base" ∉ elementNames n -> removeBaseIn n = n.
Proof.
  induction n as [tagName attribs children IH | data] using node_induction; [|done].
  intros Hno. rewrite removeBaseIn_Element. f_equal.
  apply removeBase_absent; [done|].
  intros Hin. apply Hno. simpl. by right.
Qed.

End Tree.

(** X5: the transformer never adds, renames or reorders elements: the tag
    names of its tree, in document order, are those that the removal of the
    base elements (with what is below them) leaves of the input, a
    subsequence of the names of the input. *)
Theorem transformer_only_removes_elements
    (env : Platform) (B : URL) (doc : list node) :
  documentElementNames (rewriteDocument env B doc)
  = documentElementNames (removeBase doc)
  /\ documentElementNames (rewriteDocument env B doc) `sublist_of` documentElementNames doc.
Proof.
  assert (forall d, removeBase (rewriteNode env B <$> d) = rewriteNode env B <$> removeBase d)
    as Hcomm.
  { assert (forall n, isBase (rewriteNode env B n) = isBase n) as Hb by (by intros []).
    assert (forall d,
              Forall (fun n => removeBaseIn (rewriteNode env B n)
                               = rewriteNode env B (removeBaseIn n)) d ->
              removeBase (rewriteNode env B <$> d) = rewriteNode env B <$> removeBase d)
      as Hlist.
    { induction 1 as [|c d Hc _ IH]; [done|].
      rewrite fmap_cons. cbn [removeBase]. rewrite Hb.
      destruct (isBase c); [exact IH|]. rewrite fmap_cons. by rewrite Hc, IH. }
    intros d. apply Hlist. apply Forall_forall. intros n _.
    induction n as [tagName attribs children IH | data] using node_induction; [|done].
    rewrite removeBaseIn_Element. cbn [rewriteNode].
    rewrite removeBaseIn_Element. f_equal. by apply Hlist. }
  unfold rewriteDocument. rewrite Hcomm, rewriteNode_document_names. split; [done|].
  apply removeBase_sublist. apply Forall_forall. intros n _. apply removeBaseIn_sublist.
Qed.

(** X6: a document in which the selector of the pass matches nothing and
    which has no base element comes out with the same tree. *)
Theorem untouched_document_is_returned
    (env : Platform) (B : URL) (doc : list node) :
  Forall (fun n => anySelected env n = false) doc ->
  lit "base" ∉ documentElementNames doc ->
  rewriteDocument env B doc = doc.
Proof.
  intros Hsel Hbase. unfold rewriteDocument.
  assert (rewriteNode env B <$> doc = doc) as ->.
  { induction Hsel as [|n doc Hn _ IH]; [done|].
    simpl. rewrite rewriteNode_unselected by done. f_equal. apply IH.
    intros Hin. apply Hbase. unfold documentElementNames. simpl.
    rewrite elem_of_app. by right. }
  apply removeBase_absent; [|done].
  apply Forall_forall. intros n _. apply removeBaseIn_absent.
Qed.

Lemma untouched_document_is_returned_witness :
  rewriteDocument Sample.platform Sample.xPage
    [Element (lit "html") ∅
       [Element (lit "body") ∅
          [Element (lit "p") {[ lit "class" := lit "x" ]} [Text (lit "hello")]]]]
  = [Element (lit "html") ∅
       [Element (lit "body") ∅
          [Element (lit "p") {[ lit "class" := lit "x" ]} [Text (lit "hello")]]]].
Proof.
  apply untouched_document_is_returned.
  - repeat constructor.
  - vm_compute. intros H.
    repeat (apply elem_of_cons in H as [H | H]; [discriminate H|]).
    by apply elem_of_nil in H.
Defined.

(** ** Further facts: links, forms and srcset candidates *)

Section EdgeCases.

Variable env : Platform.
Variable B : URL.

Lemma splitOn_nonempty (sep : Z) (s : jsstring) : splitOn sep s <> [].
Proof. destruct s as [|c s]; [done|]. simpl. by repeat case_match. Qed.

(** A separator at the end opens one more, empty, piece. *)
Lemma splitOn_snoc (sep : Z) (s : jsstring) :
  splitOn sep (s ++ [sep]) = splitOn sep s ++ [[]].
Proof.
  induction s as [|c s IH].
  - simpl. by rewrite Z.eqb_refl.
  - simpl. rewrite IH. destruct (c =? sep); [done|].
    pose proof (splitOn_nonempty sep s). by destruct (splitOn sep s).
Qed.

Lemma join_snoc (sep : jsstring) (xs : list jsstring) (x : jsstring) :
  xs <> [] -> join sep (xs ++ [x]) = join sep xs ++ sep ++ x.
Proof.
  induction xs as [|y xs IH]; [done|]. intros _.
  destruct xs as [|z xs]; [done|].
  change ((y :: z :: xs) ++ [x]) with (y :: ((z :: xs) ++ [x])).
  rewrite join_cons by done. rewrite IH by done.
  rewrite (join_cons sep y (z :: xs)) by done. by rewrite <- !app_assoc.
Qed.

(** An entry of white space only has the empty path, which is resolved. *)
Lemma rewriteSrcsetEntry_blank (source q : jsstring) (u : URL) :
  trim source = [] ->
  URL_new_base env [] B = Some u -> code_units (href u) ->
  encodeURIComponent (href u) = Some q ->
  rewriteSrcsetEntry env B source = lit "/proxy?url=" ++ q.
Proof.
  intros Htrim Hu Hcu Hq. unfold rewriteSrcsetEntry. rewrite Htrim.
  change (splitWs []) with [[] : jsstring]. cbn [hd tail].
  change (startsWith [] (lit "data:")) with false. cbv iota.
  unfold proxiedUrl. rewrite Hu, Hq.
  assert (Forall printable q) as Hp
    by (by apply (Encode_printable (length (href u)) (href u))).
  rewrite (trim_proxied q []) by (done || by left). done.
Qed.

End EdgeCases.

(** X7: a srcset value that ends with a comma gets one more candidate: the
    proxied URL of the base itself, because the empty last entry has the
    empty path, which resolves to the base. *)
Theorem trailing_comma_adds_base_candidate
    (env : Platform) (B : URL) (srcsetAttr q : jsstring) (u : URL) :
  URL_new_base env [] B = Some u -> code_units (href u) ->
  encodeURIComponent (href u) = Some q ->
  rewriteSrcset env B (srcsetAttr ++ lit ",")
  = rewriteSrcset env B srcsetAttr ++ lit ", " ++ lit "/proxy?url=" ++ q.
Proof.
  intros Hu Hcu Hq. unfold rewriteSrcset.
  change (lit ",") with [44]. rewrite splitOn_snoc, fmap_app.
  change (rewriteSrcsetEntry env B <$> [[]]) with [rewriteSrcsetEntry env B []].
  rewrite join_snoc.
  - by rewrite (rewriteSrcsetEntry_blank env B [] q u).
  - pose proof (splitOn_nonempty 44 srcsetAttr). by destruct (splitOn 44 srcsetAttr).
Qed.

Lemma trailing_comma_adds_base_candidate_witness :
  rewriteSrcset Sample.platform Sample.xPage (lit "/a.png 1x" ++ lit ",")
  = rewriteSrcset Sample.platform Sample.xPage (lit "/a.png 1x")
      ++ lit ", " ++ lit "/proxy?url=" ++ lit "http%3A%2F%2Fx.test%2Fpage".
Proof.
  apply (trailing_comma_adds_base_candidate Sample.platform Sample.xPage (lit "/a.png 1x")
           (lit "http%3A%2F%2Fx.test%2Fpage") (Sample.url (lit "http://x.test/page"))).
  - vm_compute. reflexivity.
  - apply ascii_code_units, ascii_only_check. reflexivity.
  - vm_compute. reflexivity.
Defined.

(** The selector compares the rel attribute without regard to case. *)
Example upper_case_stylesheet_link_is_selected :
  selected Sample.platform (lit "link") {[ lit "rel" := lit "STYLESHEET" ]} = true
  /\ nodeAttribs (rewriteNode Sample.platform Sample.xPage
        (Element (lit "link")
           {[ lit "rel" := lit "STYLESHEET"; lit "href" := lit "/a.png" ]} []))
       !! lit "href"
     = Some (lit "/proxy?url=http%3A%2F%2Fx.test%2Fa.png").
Proof. split; vm_compute; reflexivity. Qed.

(** X8: a link element whose rel attribute is absent or is not the word
    stylesheet in any letter case is matched by the selector only through
    a style attribute: without one its attributes are left as they are,
    with one (even an empty one) its href is proxied like that of a
    stylesheet link. *)
Theorem plain_link_is_rewritten_only_with_style
    (env : Platform) (B : URL) (attribs : gmap jsstring jsstring)
    (children : list node) (v : jsstring) (resolved : URL) :
  relIsStylesheet env attribs = false ->
  attribs !! lit "href" = Some v ->
  v <> [] -> startsWith v (lit "data:") = false ->
  URL_new_base env v B = Some resolved -> ascii_only (href resolved) ->
  (attribs !! lit "style" = None ->
     nodeAttribs (rewriteNode env B (Element (lit "link") attribs children)) = attribs)
  /\ (is_Some (attribs !! lit "style") ->
      exists q,
        encodeURIComponent (href resolved) = Some q
        /\ nodeAttribs (rewriteNode env B (Element (lit "link") attribs children))
             !! lit "href" = Some (lit "/proxy?url=" ++ q)).
Proof.
  intros Hrel Hv Hne Hdata Hres Hascii. split.
  - intros Hstyle. cbn [rewriteNode nodeAttribs].
    assert (selected env (lit "link") attribs = false) as ->; [|done].
    unfold selected. rewrite Hrel, andb_false_r.
    rewrite (bool_decide_eq_false_2 (is_Some (attribs !! lit "style")))
      by (rewrite Hstyle; by intros [? ?]).
    reflexivity.
  - intros Hstyle.
    rewrite rewriteNode_selected
      by (unfold selected; rewrite (bool_decide_eq_true_2 _ Hstyle); by rewrite orb_true_r).
    destruct (rewriteElement_wraps env B (lit "link") attribs v resolved) as (q & Hq & Hw);
      try done.
    by exists q.
Qed.

Lemma plain_link_is_rewritten_only_with_style_witness :
  nodeAttribs (rewriteNode Sample.platform Sample.xPage
    (Element (lit "link") {[ lit "rel" := lit "icon"; lit "href" := lit "/a.png" ]} []))
  = {[ lit "rel" := lit "icon"; lit "href" := lit "/a.png" ]}.
Proof.
  destruct (plain_link_is_rewritten_only_with_style Sample.platform Sample.xPage
              {[ lit "rel" := lit "icon"; lit "href" := lit "/a.png" ]} [] (lit "/a.png")
              (Sample.url (lit "http://x.test/a.png"))) as [Hplain _].
  - vm_compute. reflexivity.
  - vm_compute. reflexivity.
  - vm_compute. discriminate.
  - reflexivity.
  - vm_compute. reflexivity.
  - apply ascii_only_check. reflexivity.
  - apply Hplain. vm_compute. reflexivity.
Defined.

(** X9: the method of a form is set only together with its action: when
    the action is absent, empty, a data: URI, or cannot be proxied, the
    attribute pass leaves the form as it is and adds no method. *)
Theorem form_without_rewritten_action_is_kept
    (env : Platform) (B : URL) (attribs : gmap jsstring jsstring) :
  match attribs !! lit "action" with
  | None => True
  | Some v => v = [] \/ startsWith v (lit "data:") = true \/ proxiedUrl env v B = None
  end ->
  rewriteUrlAttribute env B (lit "form") attribs = attribs.
Proof.
  intros Hcase. unfold rewriteUrlAttribute, attr.
  change (urlAttribute (lit "form")) with (lit "action").
  change (lit "action") with (97 :: lit "ction") at 1. cbv iota.
  change (97 :: lit "ction") with (lit "action").
  destruct (attribs !! lit "action") as [[|c v]|]; try done.
  destruct Hcase as [? | [-> | Hp]]; [done|done|].
  destruct (startsWith _ _); [done|]. simpl negb. cbv iota. by rewrite Hp.
Qed.

Lemma form_without_rewritten_action_is_kept_witness :
  rewriteUrlAttribute Sample.platform Sample.xPage (lit "form")
    {[ lit "id" := lit "f" ]} = {[ lit "id" := lit "f" ]}.
Proof.
  apply form_without_rewritten_action_is_kept.
  vm_compute. exact I.
Defined.

(** ** Further facts: the handler *)

Section HandlerMore.

Variable env : Platform.

Lemma relayHeaders_statusCode (hs : list (jsstring * jsstring)) (r : ServerResponse) :
  statusCode (relayHeaders env hs r) = statusCode r.
Proof.
  unfold relayHeaders. revert r. induction hs as [|[n v] hs IH]; intros r; [done|].
  simpl. rewrite IH. by destruct (negb _).
Qed.

Lemma catchBlock_status (req : Request) (targetUrl name message : jsstring)
    (res : ServerResponse) :
  statusCode (catchBlock req targetUrl name message res).1
  = if isTimeout name then 504 else 500.
Proof. unfold catchBlock. by destruct (isTimeout name). Qed.

Lemma catchBlock_events (req : Request) (targetUrl name message : jsstring)
    (res : ServerResponse) (input : jsstring) (init : FetchOptions) :
  FetchCall input init ∉ (catchBlock req targetUrl name message res).2.
Proof.
  unfold catchBlock. destruct (isTimeout name); simpl;
    intros H; apply elem_of_cons in H as [H | H]; (discriminate H || by apply elem_of_nil in H).
Qed.

Lemma relay_events (req : Request) (targetUrl : jsstring) (response : Response)
    (res : ServerResponse) (input : jsstring) (init : FetchOptions) :
  FetchCall input init ∉ (relay env req targetUrl response res).2.
Proof.
  unfold relay. repeat case_match;
    first [apply catchBlock_events | cbn [snd]; apply not_elem_of_nil].
Qed.

Lemma relay_status (req : Request) (targetUrl : jsstring) (response : Response)
    (res : ServerResponse) :
  statusCode (relay env req targetUrl response res).1 = status response
  \/ statusCode (relay env req targetUrl response res).1 = 500
  \/ statusCode (relay env req targetUrl response res).1 = 504.
Proof.
  unfold relay. repeat case_match; rewrite ?catchBlock_status;
    try (destruct (isTimeout _); by auto);
    left; cbn [fst]; unfold res_end; cbn [statusCode]; by rewrite relayHeaders_statusCode.
Qed.

End HandlerMore.

(** X10: whatever the request and the upstream do, the status of the
    answer is 400, 403, 500 or 504, or it is the status of the upstream
    response that [fetch] was fulfilled with. *)
Theorem handler_status_is_classified
    (env : Platform) (req : Request) (res : ServerResponse) :
  statusCode (handler env req res).1 ∈ [400; 403; 500; 504]
  \/ exists targetUrl response,
       query_url req = Some targetUrl
       /\ fetch env targetUrl (fetchOptions req) = Fulfilled response
       /\ statusCode (handler env req res).1 = status response.
Proof.
  unfold handler.
  destruct (query_url req) as [[|c t]|] eqn:Hq; [left; set_solver|..|left; set_solver].
  destruct (URL_new env (c :: t)) as [urlObj|]; [|left; set_solver].
  destruct (_ && _); [left; set_solver|].
  destruct (fetch env (c :: t) (fetchOptions req)) as [response|name message] eqn:Hf.
  - pose proof (relay_status env req (c :: t) response res) as Hst.
    destruct (relay env req (c :: t) response res) as [res' events]. simpl in *.
    destruct Hst as [Hst | [-> | ->]]; [|left; set_solver|left; set_solver].
    right. by exists (c :: t), response.
  - pose proof (catchBlock_status req (c :: t) name message res) as Hst.
    destruct (catchBlock req (c :: t) name message res) as [res' events]. simpl in *.
    rewrite Hst. left. destruct (isTimeout name); set_solver.
Qed.

(** X11: a request that passes validation makes exactly one upstream call:
    the trace is the log line, then [fetch] on the url parameter as given,
    then no further call.  The call has the client's method and a timeout of
    15000 ms, and of the client's headers at most Content-Type goes
    upstream (only with a body), next to the fixed User-Agent. *)
Theorem valid_request_fetches_once
    (env : Platform) (req : Request) (res : ServerResponse)
    (targetUrl : jsstring) (urlObj : URL) :
  query_url req = Some targetUrl -> targetUrl <> [] ->
  URL_new env targetUrl = Some urlObj ->
  protocol urlObj = lit "http:" \/ protocol urlObj = lit "https:" ->
  (exists events,
      (handler env req res).2
      = ConsoleLog (req_method req) targetUrl
          :: FetchCall targetUrl (fetchOptions req) :: events
      /\ forall input init, FetchCall input init ∉ events)
  /\ fo_method (fetchOptions req) = req_method req
  /\ fo_timeout (fetchOptions req) = 15000
  /\ fo_body (fetchOptions req) = req_body req
  /\ (forall name value, (name, value) ∈ fo_headers (fetchOptions req) ->
        (name = lit "User-Agent" /\ value = userAgent)
        \/ (name = lit "Content-Type" /\ req_content_type req = Some value
            /\ is_Some (req_body req))).
Proof.
  intros Hq Hne Hu Hp. split.
  - rewrite (handler_valid env req res targetUrl urlObj Hq Hne Hu Hp).
    destruct (fetch env targetUrl (fetchOptions req)) as [response|name message].
    + pose proof (relay_events env req targetUrl response res) as Hev.
      destruct (relay env req targetUrl response res) as [res' events].
      by exists events.
    + pose proof (catchBlock_events req targetUrl name message res) as Hev.
      destruct (catchBlock req targetUrl name message res) as [res' events].
      by exists events.
  - unfold fetchOptions.
    destruct (req_body req) as [json|]; simpl; (split; [done|]; split; [done|]; split; [done|]).
    + intros name value Hin. apply elem_of_cons in Hin as [[= -> ->] | Hin]; [by left|].
      destruct (req_content_type req) as [[|c ct]|]; try by apply elem_of_nil in Hin.
      apply elem_of_cons in Hin as [[= -> ->] | Hin]; [|by apply elem_of_nil in Hin].
      right. split; [done|]. split; [done|]. by eexists.
    + intros name value Hin. apply elem_of_cons in Hin as [[= -> ->] | Hin]; [by left|].
      by apply elem_of_nil in Hin.
Qed.

Lemma valid_request_fetches_once_witness :
  exists events,
    (handler Sample.platform
       (mkRequest (Some (lit "http://down.test/")) (lit "GET") None None)
       (mkServerResponse 200 ∅ None)).2
    = ConsoleLog (lit "GET") (lit "http://down.test/")
        :: FetchCall (lit "http://down.test/")
             (mkFetchOptions (lit "GET") 15000 [(lit "User-Agent", userAgent)] None)
        :: events
    /\ forall input init, FetchCall input init ∉ events.
Proof.
  destruct (valid_request_fetches_once Sample.platform
              (mkRequest (Some (lit "http://down.test/")) (lit "GET") None None)
              (mkServerResponse 200 ∅ None) (lit "http://down.test/")
              (Sample.url (lit "http://down.test/"))) as (Hev & _).
  - reflexivity.
  - vm_compute. discriminate.
  - vm_compute. reflexivity.
  - left. reflexivity.
  - exact Hev.
Defined.

(** X12: when the upstream answers with a content type that includes
    text/html and its body can be read, the answer has the upstream
    status and its body is the serialization of the rewritten tree of the
    decoded body, anchored at the target URL; that tree has no base
    element. *)
Theorem html_response_is_transformed
    (env : Platform) (req : Request) (res : ServerResponse)
    (targetUrl : jsstring) (urlObj : URL) (response : Response)
    (contentType : jsstring) (bytes : list Z) :
  query_url req = Some targetUrl -> targetUrl <> [] ->
  URL_new env targetUrl = Some urlObj ->
  protocol urlObj = lit "http:" \/ protocol urlObj = lit "https:" ->
  fetch env targetUrl (fetchOptions req) = Fulfilled response ->
  headersGet (headers response) (lit "content-type") = Some contentType ->
  includes contentType (lit "text/html") = true ->
  arrayBuffer response = Fulfilled bytes ->
  let tree := rewriteDocument env urlObj (cheerio_load env (Buffer_toString env bytes)) in
  body (handler env req res).1 = Some (EndText (cheerio_html env tree))
  /\ statusCode (handler env req res).1 = status response
  /\ lit "base" ∉ documentElementNames tree.
Proof.
  intros Hq Hne Hu Hp Hf Hct Hhtml Hbytes tree.
  rewrite (handler_valid env req res targetUrl urlObj Hq Hne Hu Hp). rewrite Hf.
  unfold relay, rewriteHtmlContent. rewrite Hct, Hhtml, Hbytes, Hu. simpl.
  split; [done|]. split; [by rewrite relayHeaders_statusCode|].
  apply removeBase_names. apply Forall_forall. intros n _. apply removeBaseIn_names.
Qed.

Lemma html_response_is_transformed_witness :
  statusCode (handler Sample.platform
                (mkRequest (Some (lit "http://x.test/page")) (lit "GET") None None)
                (mkServerResponse 200 ∅ None)).1 = 200
  /\ body (handler Sample.platform
             (mkRequest (Some (lit "http://x.test/page")) (lit "GET") None None)
             (mkServerResponse 200 ∅ None)).1
     = Some (EndText (lit "<html><head></head><body><img src=" ++ [34]
                      ++ lit "/proxy?url=http%3A%2F%2Fx.test%2Fa.png" ++ [34]
                      ++ lit "></body></html>")).
Proof.
  destruct (html_response_is_transformed Sample.platform
              (mkRequest (Some (lit "http://x.test/page")) (lit "GET") None None)
              (mkServerResponse 200 ∅ None) (lit "http://x.test/page") Sample.xPage
              Sample.page (lit "text/html; charset=utf-8") Sample.pageText)
    as (Hbody & Hst & _).
  - reflexivity.
  - vm_compute. discriminate.
  - vm_compute. reflexivity.
  - left. reflexivity.
  - vm_compute. reflexivity.
  - vm_compute. reflexivity.
  - vm_compute. reflexivity.
  - reflexivity.
  - split; [exact Hst|]. rewrite Hbody. vm_compute. reflexivity.
Defined.




(** X14: when the upstream answer has no content type, or one that
    includes neither text/html nor text/css, and its body can be read,
    the bytes are sent as they are, with the upstream status and the
    relayed headers; nothing is logged after the call. *)
Theorem other_content_is_passed_through
    (env : Platform) (req : Request) (res : ServerResponse)
    (targetUrl : jsstring) (urlObj : URL) (response : Response) (bytes : list Z) :
  query_url req = Some targetUrl -> targetUrl <> [] ->
  URL_new env targetUrl = Some urlObj ->
  protocol urlObj = lit "http:" \/ protocol urlObj = lit "https:" ->
  fetch env targetUrl (fetchOptions req) = Fulfilled response ->
  (forall contentType,
      headersGet (headers response) (lit "content-type") = Some contentType ->
      includes contentType (lit "text/html") = false
      /\ includes contentType (lit "text/css") = false) ->
  arrayBuffer response = Fulfilled bytes ->
  handler env req res
  = (res_end (EndBuffer bytes)
       (relayHeaders env (headers response) (res_status (status response) res)),
     [ConsoleLog (req_method req) targetUrl; FetchCall targetUrl (fetchOptions req)]).
Proof.
  intros Hq Hne Hu Hp Hf Hct Hbytes.
  rewrite (handler_valid env req res targetUrl urlObj Hq Hne Hu Hp). rewrite Hf.
  unfold relay. rewrite Hbytes.
  destruct (headersGet (headers response) (lit "content-type")) as [ct|]; [|done].
  destruct (Hct ct eq_refl) as [-> ->]. done.
Qed.

Lemma other_content_is_passed_through_witness :
  (handler (Sample.serving Sample.image)
     (mkRequest (Some (lit "http://x.test/page")) (lit "GET") None None)
     (mkServerResponse 200 ∅ None)).1
  = mkServerResponse 206
      {[ lit "content-range" := HeaderSet (lit "content-range") (lit "bytes 0-3/10");
         lit "content-type" := HeaderSet (lit "content-type") (lit "image/png") ]}
      (Some (EndBuffer [137; 80; 78; 71])).
Proof.
  rewrite (other_content_is_passed_through (Sample.serving Sample.image)
             (mkRequest (Some (lit "http://x.test/page")) (lit "GET") None None)
             (mkServerResponse 200 ∅ None) (lit "http://x.test/page") Sample.xPage
             Sample.image [137; 80; 78; 71]).
  - vm_compute. reflexivity.
  - reflexivity.
  - vm_compute. discriminate.
  - vm_compute. reflexivity.
  - left. reflexivity.
  - reflexivity.
  - intros ct Hct. vm_compute in Hct. injection Hct as <-. split; reflexivity.
  - reflexivity.
Defined.

(** Witnesses of the two status lemmas above. *)
Lemma handler_rejected_status_witness :
  statusCode (handler Sample.platform
                (mkRequest (Some (lit "http://slow.test/")) (lit "POST") None None)
                (mkServerResponse 200 ∅ None)).1 = 504.
Proof.
  rewrite (handler_rejected_status Sample.platform
             (mkRequest (Some (lit "http://slow.test/")) (lit "POST") None None)
             (mkServerResponse 200 ∅ None) (lit "http://slow.test/")
             (Sample.url (lit "http://slow.test/")) (lit "TimeoutError")
             (lit "The operation was aborted due to timeout")).
  - reflexivity.
  - reflexivity.
  - vm_compute. discriminate.
  - vm_compute. reflexivity.
  - left. reflexivity.
  - reflexivity.
Defined.

Lemma handler_fulfilled_status_witness :
  statusCode (handler (Sample.serving Sample.image)
                (mkRequest (Some (lit "http://x.test/page")) (lit "GET") None None)
                (mkServerResponse 200 ∅ None)).1 = 206.
Proof.
  rewrite (handler_fulfilled_status (Sample.serving Sample.image)
             (mkRequest (Some (lit "http://x.test/page")) (lit "GET") None None)
             (mkServerResponse 200 ∅ None) (lit "http://x.test/page") Sample.xPage
             Sample.image [137; 80; 78; 71] []).
  - reflexivity.
  - reflexivity.
  - vm_compute. discriminate.
  - vm_compute. reflexivity.
  - left. reflexivity.
  - reflexivity.
  - reflexivity.
  - reflexivity.
Defined.

(** ** Further facts: the request headers of the earlier revision *)

(** X15: in the earlier revision the upstream request never carries the
    client's host, connection, content-length, transfer-encoding or
    referer header; every other client header goes upstream under its own
    name with its value; and a non-empty range header is sent under the
    name Range as well. *)
Theorem client_headers_are_filtered
    (env : Platform) (reqHeaders : gmap jsstring jsstring) :
  (forall k, k <> lit "Range" ->
     toLowerCase env k ∈ Revision.blockedRequestHeaders ->
     Revision.headersToSend env reqHeaders !! k = None)
  /\ (forall k, k <> lit "Range" ->
        toLowerCase env k ∉ Revision.blockedRequestHeaders ->
        Revision.headersToSend env reqHeaders !! k = reqHeaders !! k)
  /\ (forall c r, reqHeaders !! lit "range" = Some (c :: r) ->
        Revision.headersToSend env reqHeaders !! lit "Range" = Some (c :: r)).
Proof.
  assert (forall k, k <> lit "Range" ->
            Revision.headersToSend env reqHeaders !! k
            = filter (fun kv => toLowerCase env kv.1 ∉ Revision.blockedRequestHeaders)
                reqHeaders !! k) as Hrange.
  { intros k Hk. unfold Revision.headersToSend.
    destruct (reqHeaders !! lit "range") as [[|c r]|]; try done.
    by rewrite lookup_insert_ne. }
  split; [|split].
  - intros k Hk Hblocked. rewrite Hrange by done.
    apply map_lookup_filter_None. right. intros v _ Hnot. by apply Hnot.
  - intros k Hk Hfree. rewrite Hrange by done.
    destruct (reqHeaders !! k) as [v|] eqn:Hv.
    + by apply map_lookup_filter_Some.
    + apply map_lookup_filter_None. by left.
  - intros c r Hr. unfold Revision.headersToSend. rewrite Hr.
    by rewrite lookup_insert_eq.
Qed.
